(** * chatbot.py: a command-line chat client around a LangGraph agent

    A shallow embedding of [src/chatbot.py].  The module-level code loads
    [PROMPT] from [prompt.txt], [create_chatbot] assembles the agent from
    three environment settings, [invoke_graph] is the read/stream/print
    loop and [main] opens the tool channel and runs the loop.

    Python exceptions are an explicit [Result]; standard input is the
    finite list of the lines it still holds (reading past its end raises
    [EOFError]); everything the program does to the outside world (prompts,
    reads, agent calls, prints) is recorded in order in a log.  The
    libraries the program only calls (mcp, langchain, langgraph) are an
    interface, [Libraries], that every statement quantifies over. *)

From Stdlib Require Import Ascii String.
From stdpp Require Import base option strings list gmap.

Open Scope string_scope.
Open Scope list_scope.

(** ** The Python builtins the program uses *)

Module Py.

(** Exception classes that can reach the program.  [ExternalError] stands
    for the classes the libraries raise. *)
Inductive Exn : Type :=
| FileNotFoundError
| PermissionError
| IsADirectoryError
| UnicodeDecodeError
| EOFError
| IndexError
| ExternalError (what : string).

#[global] Instance Exn_eq_dec : EqDecision Exn.
Proof. solve_decision. Defined.

Inductive Result (A : Type) : Type :=
| Ok (a : A)
| Raise (e : Exn).
Arguments Ok {A} a.
Arguments Raise {A} e.

#[global] Instance Result_ret : MRet Result := fun A a => Ok a.
#[global] Instance Result_bind : MBind Result := fun A B k m =>
  match m with
  | Ok a => k a
  | Raise e => Raise e
  end.

(** [except FileNotFoundError]: the clause matches that class (it has no
    subclass in the model). *)
Definition isinstance_FileNotFoundError (e : Exn) : bool :=
  match e with
  | FileNotFoundError => true
  | _ => false
  end.

(** [try: body / except <class>: handler]. *)
Definition try_except {A : Type} (body : Result A) (matches : Exn -> bool)
    (handler : Result A) : Result A :=
  match body with
  | Ok a => Ok a
  | Raise e => if matches e then handler else Raise e
  end.

(** *** str *)

(** [str.lower] on one character.  The model holds a [str] as its bytes
    and folds the ASCII capitals; bytes from 128 up are kept.  No
    character outside [A-Z] lowers to one of [q], [u], [i], [t], so
    the comparison with ["quit"] the program makes comes out as in
    Python for every input. *)
Definition lower_char (c : ascii) : ascii :=
  let n := nat_of_ascii c in
  if (65 <=? n)%nat && (n <=? 90)%nat then ascii_of_nat (n + 32) else c.

Fixpoint lower (s : string) : string :=
  match s with
  | EmptyString => EmptyString
  | String c r => String (lower_char c) (lower r)
  end.

(** *** list *)

(** [xs[-1]]: the last element, [IndexError] on the empty list. *)
Definition getitem_last {A : Type} (xs : list A) : Result A :=
  match last xs with
  | Some x => Ok x
  | None => Raise IndexError
  end.

(** *** os.getenv *)

Definition getenv (environ : gmap string string) (key default_ : string) : string :=
  default default_ (environ !! key).

(** *** open / read

    What a path of the file system holds: a file with the bytes stored in
    it, a node [open] fails on (no permission, a directory, a dangling
    link), or a file whose [read] fails with an I/O error.  A path outside
    the map does not exist. *)
Inductive Node : Type :=
| File (bytes : string)
| OpenFails (e : Exn)
| ReadFails (e : Exn).

(** An encoding, seen from a strict decoder: the text the bytes stand
    for, or none when they do not decode.  [open] is called without
    [encoding], so the one used is the locale's. *)
Definition Encoding : Type := string → option string.

(** The strict [ascii] codec: bytes from 128 up do not decode. *)
Fixpoint decode_ascii (bytes : string) : option string :=
  match bytes with
  | EmptyString => Some EmptyString
  | String b r =>
      if (nat_of_ascii b <? 128)%nat
      then String b <$> decode_ascii r
      else None
  end.

Definition CR : ascii := "013"%char.
Definition LF : ascii := "010"%char.

(** Text mode with [newline=None]: on reading, a carriage return followed
    by a line feed, and a carriage return alone, become one line feed. *)
Fixpoint universal_newlines (text : string) : string :=
  match text with
  | EmptyString => EmptyString
  | String c r =>
      if decide (c = CR) then
        String LF
          match r with
          | EmptyString => EmptyString
          | String c' r' =>
              if decide (c' = LF) then universal_newlines r'
              else universal_newlines r
          end
      else String c (universal_newlines r)
  end.

(** The object a text-mode [open] returns: what reading the file gives
    at the level of bytes, and the decoder in front of it. *)
Record TextIO : Type := { buffer : Result string; decoder : Encoding }.

(** [open(path, "r")] *)
Definition open (fs : gmap string Node) (locale : Encoding) (path : string)
    : Result TextIO :=
  match fs !! path with
  | None => Raise FileNotFoundError
  | Some (OpenFails e) => Raise e
  | Some (File bytes) => Ok {| buffer := Ok bytes; decoder := locale |}
  | Some (ReadFails e) => Ok {| buffer := Raise e; decoder := locale |}
  end.

(** [f.read()]: all the bytes, decoded, with the newlines translated. *)
Definition read (f : TextIO) : Result string :=
  bytes ← buffer f;
  match decoder f bytes with
  | None => Raise UnicodeDecodeError
  | Some text => Ok (universal_newlines text)
  end.

End Py.

Import Py.

(** ** The libraries the program calls

    Nothing of mcp, langchain or langgraph is in the repository: the
    program builds their objects and calls them.  [Graph] is the compiled
    agent together with all it remembers (its [MemorySaver] checkpoints);
    a call of [astream] answers with the snapshots it will yield, how the
    iteration ends, and the agent as it is once the iteration is over. *)

(** [{"role": "user", "content": user_input}] *)
Record Message : Type := { role : string; content : string }.

#[global] Instance Message_eq_dec : EqDecision Message.
Proof. solve_decision. Defined.

(** [StdioServerParameters(command=..., args=...)] *)
Record StdioServerParameters : Type := { command : string; args : list string }.

(** The keyword arguments [init_chat_model] is called with. *)
Record ChatModel : Type := { model : string; base_url : string; api_key : string }.

(** [{"configurable": {"thread_id": ...}}] *)
Record RunnableConfig : Type := { thread_id : string }.

Class Libraries : Type := {
  Tool : Type;
  AnyMessage : Type;
  Streams : Type;
  Session : Type;
  BaseChatModel : Type;
  Graph : Type;
  (** entering [stdio_client(...)]: spawns the server process *)
  stdio_client : StdioServerParameters -> Result Streams;
  (** entering [ClientSession(read, write)] and [session.initialize()] *)
  initialize : Streams -> Result Session;
  load_mcp_tools : Session -> Result (list Tool);
  (** [init_chat_model(model=..., base_url=..., api_key=...)]: raises for a
      model it cannot resolve or a provider that is not installed *)
  init_chat_model : ChatModel -> Result BaseChatModel;
  (** [create_react_agent(model, tools, prompt, checkpointer=MemorySaver())] *)
  create_react_agent : BaseChatModel -> list Tool -> string -> Result Graph;
  (** [graph.astream({"messages": messages}, config, stream_mode="values")]:
      each yielded state is given by its ["messages"] list; [Some e] when
      the iteration ends by raising [e], [None] when it is exhausted.  The
      agent reads the list it is handed and builds its own messages from
      it; the list object stays the caller's. *)
  astream : Graph -> list Message -> RunnableConfig ->
            list (list AnyMessage) * option Exn * Graph;
}.

(** What the program does to the outside world, in order: the server
    process it spawns, the call of [create_react_agent] in
    [create_chatbot] with the arguments it is given, the prompt [input]
    writes, the line it returns, a call of [astream], a [pretty_print] and
    a [print]. *)
Inductive Action `{Libraries} : Type :=
| Spawn (params : StdioServerParameters)
| Assemble (llm : BaseChatModel) (tools : list Tool) (prompt : string)
| Prompt (text : string)
| ReadLine (line : string)
| Astream (messages : list Message) (config : RunnableConfig)
| PrettyPrint (m : AnyMessage)
| Print (text : string).

(** How a piece of the program ends, with the conversation history it
    leaves, the input lines it has not read and what it did. *)
Record Run `{Libraries} : Type := {
  outcome : Result unit;
  history : list Message;
  unread : list string;
  log : list Action;
}.

(** The same run after [before] has happened. *)
Definition after `{Libraries} (before : list Action) (r : Run) : Run :=
  {| outcome := outcome r; history := history r; unread := unread r;
     log := before ++ log r |}.

(** ** chatbot.py *)

Module Chatbot.
Section Program.
Context `{Libraries}.

Definition knowledge_args : list string :=
  [ "run"; "-i"; "--rm"; "--network=graphrag-knowledge_mcp_net";
    "graphrag-knowledge-mcp"; "node"; "dist/index.js" ].

Definition fetch_args : list string := [ "run"; "-i"; "--rm"; "mcp/fetch" ].

Definition newline : string := String "010"%char EmptyString.
Definition quote : string := String "034"%char EmptyString.

(** The text of the [except] branch: three lines, the last two indented
    by four blanks as in the source. *)
Definition DEFAULT_PROMPT : string :=
  "You are a helpful assistant that can answer questions about the knowledge base."
  +:+ newline +:+
  "    Use the tools provided to fetch information from the knowledge base."
  +:+ newline +:+
  "    If you don't know the answer, say " +:+ quote +:+ "I don't know" +:+ quote +:+ ".".

(** The module-level [try] / [except FileNotFoundError] that binds
    [PROMPT]. *)
Definition PROMPT (fs : gmap string Node) (locale : Encoding) : Result string :=
  try_except
    (f ← open fs locale "prompt.txt"; read f)
    isinstance_FileNotFoundError
    (Ok DEFAULT_PROMPT).

(** The keyword arguments of the call of [init_chat_model]. *)
Definition init_chat_model_args (environ : gmap string string) : ChatModel :=
  {| model := getenv environ "LLM_API_MODEL" "anthropic:claude-4-sonnet-latest";
     base_url := getenv environ "LLM_API_URL" "http://localhost:8080";
     api_key := getenv environ "LLM_API_KEY" "test" |}.

(** [create_chatbot(tools)]; the two globals it reads, [os.environ] and
    [PROMPT], are arguments here.  Neither library call is guarded: what
    one raises leaves the function.  The result comes with the call of
    [create_react_agent] the function made, if it got that far. *)
Definition create_chatbot (environ : gmap string string) (prompt : string)
    (tools : list Tool) : list Action * Result Graph :=
  match init_chat_model (init_chat_model_args environ) with
  | Raise e => ([], Raise e)
  | Ok llm =>
      let agent := create_react_agent llm tools prompt in
      ([Assemble llm tools prompt], agent)
  end.

Definition config : RunnableConfig := {| thread_id := "1" |}.

Definition user_message (user_input : string) : Message :=
  {| role := "user"; content := user_input |}.

(** The body of the [async for]: [event["messages"][-1].pretty_print()]
    for each yielded state, then the way the iteration ends. *)
Fixpoint print_events (events : list (list AnyMessage)) (ending : option Exn)
    : list Action * option Exn :=
  match events with
  | [] => ([], ending)
  | event :: events' =>
      match getitem_last event with
      | Raise e => ([], Some e)
      | Ok m =>
          let '(printed, raised) := print_events events' ending in
          (PrettyPrint m :: printed, raised)
      end
  end.

(** What is printed for a snapshot with a last message. *)
Definition shown (event : list AnyMessage) : option Action :=
  PrettyPrint <$> last event.

(** [while True:] of [invoke_graph], by recursion on the lines standard
    input still holds.  [messages.append] updates the one list object of
    the function: [messages'] is that list after the call. *)
Fixpoint invoke_graph_loop (graph : Graph) (messages : list Message)
    (stdin : list string) : Run :=
  match stdin with
  | [] =>
      {| outcome := Raise EOFError; history := messages; unread := [];
         log := [Prompt "User: "] |}
  | user_input :: stdin' =>
      if decide (lower user_input = "quit") then
        {| outcome := Ok (); history := messages; unread := stdin';
           log := [Prompt "User: "; ReadLine user_input; Print "Exiting..."] |}
      else
        let messages' := messages ++ [user_message user_input] in
        let '(events, ending, graph') := astream graph messages' config in
        let '(printed, raised) := print_events events ending in
        after (Prompt "User: " :: ReadLine user_input
                 :: Astream messages' config :: printed)
          match raised with
          | Some e =>
              {| outcome := Raise e; history := messages'; unread := stdin';
                 log := [] |}
          | None => invoke_graph_loop graph' messages' stdin'
          end
  end.

Definition invoke_graph (graph : Graph) (stdin : list string) : Run :=
  invoke_graph_loop graph [] stdin.

(** A run that ends before the loop is entered. *)
Definition unwound (e : Exn) (stdin : list string) : Run :=
  {| outcome := Raise e; history := []; unread := stdin; log := [] |}.

(** The two [async with] blocks release the channel on the way out and
    let an exception through. *)
Definition main (prompt : string) (environ : gmap string string)
    (stdin : list string) : Run :=
  let params := {| command := "docker"; args := knowledge_args |} in
  after [Spawn params]
    match stdio_client params with
    | Raise e => unwound e stdin
    | Ok streams =>
        match initialize streams with
        | Raise e => unwound e stdin
        | Ok session =>
            match load_mcp_tools session with
            | Raise e => unwound e stdin
            | Ok tools =>
                let '(assembling, graph) := create_chatbot environ prompt tools in
                after assembling
                  match graph with
                  | Raise e => unwound e stdin
                  | Ok graph => invoke_graph graph stdin
                  end
            end
        end
    end.

(** What the process starts in. *)
Record World : Type := {
  files : gmap string Node;
  encoding : Encoding;
  environ : gmap string string;
  stdin : list string;
}.

(** The module from its first line to [asyncio.run(main())]: an exception
    that leaves [main] leaves [asyncio.run] and the module. *)
Definition chatbot (w : World) : Run :=
  match PROMPT (files w) (encoding w) with
  | Raise e => unwound e (stdin w)
  | Ok prompt => main prompt (environ w) (stdin w)
  end.

(** The exit status of the interpreter: 1 after an uncaught exception. *)
Definition exit_status (r : Run) : nat :=
  match outcome r with
  | Ok _ => 0
  | Raise _ => 1
  end.

End Program.
End Chatbot.

(** ** The loop as a state machine

    The same loop, one transition at a time: where control stands
    ([input] is being called, the [async for] is being iterated, the
    function has returned, an exception is on its way out), with the
    variables of [invoke_graph] and the lines standard input still holds. *)

Module Machine.
Section Machine.
Context `{Libraries}.

Inductive Control : Type :=
| AWAITING_INPUT
| STREAMING_RESPONSE (events : list (list AnyMessage)) (ending : option Exn)
    (graph' : Graph)
| TERMINATED
| UNWINDING (e : Exn).

Record State : Type := {
  control : Control;
  graph : Graph;
  messages : list Message;
  stdin : list string;
  done : list Action;
}.

Definition start (g : Graph) (msgs : list Message) (lines : list string)
    (before : list Action) : State :=
  {| control := AWAITING_INPUT; graph := g; messages := msgs; stdin := lines;
     done := before |}.

(** One transition; [None] once the function is left. *)
Definition step (s : State) : option State :=
  match control s with
  | AWAITING_INPUT =>
      match stdin s with
      | [] =>
          Some {| control := UNWINDING EOFError; graph := graph s;
                  messages := messages s; stdin := [];
                  done := done s ++ [Prompt "User: "] |}
      | user_input :: stdin' =>
          if decide (lower user_input = "quit") then
            Some {| control := TERMINATED; graph := graph s;
                    messages := messages s; stdin := stdin';
                    done := done s ++ [Prompt "User: "; ReadLine user_input;
                                       Print "Exiting..."] |}
          else
            let messages' := messages s ++ [Chatbot.user_message user_input] in
            let '(events, ending, graph') :=
              astream (graph s) messages' Chatbot.config in
            Some {| control := STREAMING_RESPONSE events ending graph';
                    graph := graph s; messages := messages'; stdin := stdin';
                    done := done s ++ [Prompt "User: "; ReadLine user_input;
                                       Astream messages' Chatbot.config] |}
      end
  | STREAMING_RESPONSE (event :: events') ending graph' =>
      match getitem_last event with
      | Raise e =>
          Some {| control := UNWINDING e; graph := graph s;
                  messages := messages s; stdin := stdin s; done := done s |}
      | Ok m =>
          Some {| control := STREAMING_RESPONSE events' ending graph';
                  graph := graph s; messages := messages s; stdin := stdin s;
                  done := done s ++ [PrettyPrint m] |}
      end
  | STREAMING_RESPONSE [] (Some e) graph' =>
      Some {| control := UNWINDING e; graph := graph s;
              messages := messages s; stdin := stdin s; done := done s |}
  | STREAMING_RESPONSE [] None graph' =>
      Some {| control := AWAITING_INPUT; graph := graph';
              messages := messages s; stdin := stdin s; done := done s |}
  | TERMINATED => None
  | UNWINDING _ => None
  end.

(** At most [n] transitions. *)
Fixpoint steps (n : nat) (s : State) : State :=
  match n with
  | O => s
  | S n' =>
      match step s with
      | None => s
      | Some s' => steps n' s'
      end
  end.

(** What a state in which the function is left amounts to. *)
Definition result (s : State) : option Run :=
  match control s with
  | TERMINATED =>
      Some {| outcome := Ok (); history := messages s; unread := stdin s;
              log := done s |}
  | UNWINDING e =>
      Some {| outcome := Raise e; history := messages s; unread := stdin s;
              log := done s |}
  | _ => None
  end.

(** The run a state is part of, told by the loop of [invoke_graph]:
    what was done so far, then what the loop does from here. *)
Definition finish (s : State) : Run :=
  match control s with
  | AWAITING_INPUT =>
      after (done s) (Chatbot.invoke_graph_loop (graph s) (messages s) (stdin s))
  | STREAMING_RESPONSE events ending graph' =>
      let '(printed, raised) := Chatbot.print_events events ending in
      after (done s ++ printed)
        match raised with
        | Some e =>
            {| outcome := Raise e; history := messages s; unread := stdin s;
               log := [] |}
        | None => Chatbot.invoke_graph_loop graph' (messages s) (stdin s)
        end
  | TERMINATED =>
      {| outcome := Ok (); history := messages s; unread := stdin s;
         log := done s |}
  | UNWINDING e =>
      {| outcome := Raise e; history := messages s; unread := stdin s;
         log := done s |}
  end.

End Machine.
End Machine.

(** ** The quit command as the specification words it

    Not part of the program: the test "the trimmed, case-insensitive input
    equals quit", with [str.strip] for the trimming. *)

Module SpecWording.

(** [str.isspace] on an ASCII character: tab to carriage return, the
    four separators 28 to 31, and the blank. *)
Definition isspace (c : ascii) : bool :=
  let n := nat_of_ascii c in
  ((9 <=? n)%nat && (n <=? 13)%nat) || ((28 <=? n)%nat && (n <=? 32)%nat).

Fixpoint lstrip (s : string) : string :=
  match s with
  | EmptyString => EmptyString
  | String c r => if isspace c then lstrip r else s
  end.

Fixpoint rstrip (s : string) : string :=
  match s with
  | EmptyString => EmptyString
  | String c r =>
      match rstrip r with
      | EmptyString => if isspace c then EmptyString else String c EmptyString
      | r' => String c r'
      end
  end.

Definition strip (s : string) : string := rstrip (lstrip s).

Definition trimmed_case_insensitive_quit (line : string) : Prop :=
  lower (strip line) = "quit".

End SpecWording.

(** ** Stand-ins for the libraries

    An agent that plays a script: the n-th call of [astream] yields the
    n-th entry, and an exhausted script yields nothing.  Its messages are
    plain strings.  The tool channel opens, or fails as told. *)

Module Scripted.

Definition Script : Type := list (list (list string) * option Exn).

Definition play (script : Script) (messages : list Message)
    (config : RunnableConfig) : list (list string) * option Exn * Script :=
  match script with
  | [] => ([], None, [])
  | (events, ending) :: script' => (events, ending, script')
  end.

(** A model name without a provider is refused, as [init_chat_model]
    does when it cannot infer one. *)
Definition resolve (kwargs : ChatModel) : Result ChatModel :=
  if decide (model kwargs = "nonsense")
  then Raise (ExternalError "ValueError")
  else Ok kwargs.

Definition libraries (channel : Result (list string)) (script : Script)
    : Libraries :=
  {| Tool := string;
     AnyMessage := string;
     Streams := unit;
     Session := unit;
     BaseChatModel := ChatModel;
     Graph := Script;
     stdio_client := fun _ => Ok ();
     initialize := fun _ => Ok ();
     load_mcp_tools := fun _ => channel;
     init_chat_model := resolve;
     create_react_agent := fun _ _ _ => Ok script;
     astream := play |}.

(** One turn answered in two snapshots. *)
Definition echo_once : Script :=
  [ ([ ["Hello"]; ["Hello"; "Hi, how can I help?"] ], None) ].

(** A turn that yields one snapshot and then fails. *)
Definition fails_mid_turn : Script :=
  [ ([ ["Hello"] ], Some (ExternalError "APIConnectionError")) ].

(** A turn whose second snapshot holds no message. *)
Definition empty_snapshot : Script :=
  [ ([ ["Hello"]; []; ["never reached"] ], None) ].

End Scripted.

(** ** Reading a log *)

Section Log.
Context `{Libraries}.

(** The lines [input] returned, in order. *)
Definition reads (l : list Action) : list string :=
  omap (λ a, match a with ReadLine line => Some line | _ => None end) l.

(** The arguments of the calls of [astream], in order. *)
Definition calls (l : list Action) : list (list Message * RunnableConfig) :=
  omap (λ a, match a with Astream msgs cfg => Some (msgs, cfg) | _ => None end) l.

(** The arguments the agent was assembled with. *)
Definition assembled (l : list Action)
    : list (BaseChatModel * list Tool * string) :=
  omap (λ a, match a with
             | Assemble llm tools prompt => Some (llm, tools, prompt)
             | _ => None
             end) l.

(** The prompts [input] wrote, in order. *)
Definition prompts (l : list Action) : list string :=
  omap (λ a, match a with Prompt text => Some text | _ => None end) l.

(** The three calls at the head of [main] that lead to the tools. *)
Definition discover_tools : Result (list Tool) :=
  streams ← stdio_client {| command := "docker"; args := Chatbot.knowledge_args |};
  session ← initialize streams;
  load_mcp_tools session.

(** An agent whose streams all end without error and whose snapshots all
    hold a message. *)
Definition dependable : Prop :=
  ∀ graph messages cfg, ∃ events graph',
    astream graph messages cfg = (events, None, graph')
    ∧ Forall (λ event, event ≠ []) events.

End Log.

(** A state of a session on input [lines] entered with history
    [initial]: the lines read so far and the lines still to come are the
    input, and the history is [initial] and the user messages of the lines
    read. *)
Definition accounted `{Libraries} (initial : list Message)
    (lines : list string) (s : Machine.State) : Prop :=
  reads (Machine.done s) ++ Machine.stdin s = lines
  ∧ Machine.messages s =
      initial ++ (Chatbot.user_message <$>
                    filter (λ line, lower line ≠ "quit")
                      (reads (Machine.done s))).

(** An agent that answers every call with one snapshot, the messages it
    was handed followed by a reply; the tool channel opens and lists no
    tool. *)

Module Echo.

Definition answer (messages : list Message) (config : RunnableConfig)
    : list (list Message) * option Exn * unit :=
  ([ messages ++ [{| role := "assistant"; content := "ok" |}] ], None, ()).

Definition libraries : Libraries :=
  {| Tool := string;
     AnyMessage := Message;
     Streams := unit;
     Session := unit;
     BaseChatModel := ChatModel;
     Graph := unit;
     stdio_client := fun _ => Ok ();
     initialize := fun _ => Ok ();
     load_mcp_tools := fun _ => Ok [];
     init_chat_model := fun kwargs => Ok kwargs;
     create_react_agent := fun _ _ _ => Ok ();
     astream := fun _ => answer |}.

End Echo.

(** * Properties *)

Import Chatbot.

(** ** Runs and logs *)

Section Runs.
Context `{Libraries}.

Lemma after_nil (r : Run) : after [] r = r.
Proof. by destruct r. Qed.

End Runs.

(** ** The body of the [async for] *)

Section Printing.
Context `{Libraries}.

Lemma getitem_last_nonempty {A : Type} (xs : list A) :
  xs ≠ [] → ∃ x, last xs = Some x ∧ getitem_last xs = Ok x.
Proof.
  intros Hne. unfold getitem_last.
  destruct (last xs) as [x|] eqn:Hlast; [by exists x|].
  by apply last_None in Hlast.
Qed.

Lemma print_events_cons_ok event m events ending :
  last event = Some m →
  print_events (event :: events) ending =
    (PrettyPrint m :: (print_events events ending).1,
     (print_events events ending).2).
Proof.
  intros Hlast. simpl. unfold getitem_last. rewrite Hlast.
  by destruct (print_events events ending).
Qed.

Lemma omap_shown_cons event m (events : list (list AnyMessage)) :
  last event = Some m →
  omap shown (event :: events) = PrettyPrint m :: omap shown events.
Proof. intros Hlast. simpl. unfold shown at 1. by rewrite Hlast. Qed.

(** Snapshots that all hold a message are all printed, and the iteration
    ends the way the stream ends. *)
Lemma print_events_nonempty events ending :
  Forall (λ event, event ≠ []) events →
  print_events events ending = (omap shown events, ending).
Proof.
  induction 1 as [|event events Hne _ IH]; [done|].
  destruct (getitem_last_nonempty event Hne) as (m & Hlast & _).
  rewrite (print_events_cons_ok _ m) by done.
  by rewrite IH, (omap_shown_cons _ m).
Qed.

(** The first snapshot without a message stops the iteration. *)
Lemma print_events_until_empty before events ending :
  Forall (λ event, event ≠ []) before →
  print_events (before ++ [] :: events) ending =
    (omap shown before, Some IndexError).
Proof.
  induction 1 as [|event before Hne _ IH]; [done|].
  destruct (getitem_last_nonempty event Hne) as (m & Hlast & _).
  rewrite <- app_comm_cons, (print_events_cons_ok _ m) by done.
  by rewrite IH, (omap_shown_cons _ m).
Qed.

(** Every stream is of one of the two kinds. *)
Lemma first_empty_snapshot (events : list (list AnyMessage)) :
  Forall (λ event, event ≠ []) events ∨
  ∃ before events',
    events = before ++ [] :: events' ∧ Forall (λ event, event ≠ []) before.
Proof.
  induction events as [|event events IH]; [by left|].
  destruct event as [|m event].
  - right. by exists [], events.
  - destruct IH as [Hall|(before & events' & -> & Hbefore)].
    + left. by constructor.
    + right. exists ((m :: event) :: before), events'.
      split; [done|]. by constructor.
Qed.

Lemma length_omap_shown (events : list (list AnyMessage)) :
  Forall (λ event, event ≠ []) events →
  length (omap shown events) = length events.
Proof.
  induction 1 as [|event events Hne _ IH]; [done|].
  destruct (getitem_last_nonempty event Hne) as (m & Hlast & _).
  rewrite (omap_shown_cons _ m) by done. simpl. by rewrite IH.
Qed.

End Printing.

(** ** One iteration of [while True] *)

Section Loop.
Context `{Libraries}.

Lemma loop_quit graph messages line rest :
  lower line = "quit" →
  invoke_graph_loop graph messages (line :: rest) =
    {| outcome := Ok (); history := messages; unread := rest;
       log := [Prompt "User: "; ReadLine line; Print "Exiting..."] |}.
Proof. intros Hq. simpl. by rewrite decide_True. Qed.

Lemma loop_turn graph messages line rest events ending graph' :
  lower line ≠ "quit" →
  astream graph (messages ++ [user_message line]) config
    = (events, ending, graph') →
  invoke_graph_loop graph messages (line :: rest) =
    after (Prompt "User: " :: ReadLine line
             :: Astream (messages ++ [user_message line]) config
             :: (print_events events ending).1)
      match (print_events events ending).2 with
      | Some e =>
          {| outcome := Raise e; history := messages ++ [user_message line];
             unread := rest; log := [] |}
      | None =>
          invoke_graph_loop graph' (messages ++ [user_message line]) rest
      end.
Proof.
  intros Hq Hstream. simpl. rewrite decide_False by done.
  rewrite Hstream. by destruct (print_events events ending).
Qed.

(** The loop only ever extends the list it was entered with. *)
Lemma loop_history_prefix graph messages lines :
  messages `prefix_of` history (invoke_graph_loop graph messages lines).
Proof.
  revert graph messages.
  induction lines as [|line rest IH]; intros graph messages; [done|].
  destruct (decide (lower line = "quit")) as [Hq|Hq].
  - by rewrite loop_quit.
  - destruct (astream graph (messages ++ [user_message line]) config)
      as [[events ending] graph'] eqn:Hstream.
    rewrite (loop_turn _ _ _ _ _ _ _ Hq Hstream). simpl.
    destruct (print_events events ending).2; simpl.
    + by apply prefix_app_r.
    + etrans; [|apply IH]. by apply prefix_app_r.
Qed.

Lemma print_events_no_assemble events ending llm tools prompt :
  Assemble llm tools prompt ∉ (print_events events ending).1.
Proof.
  induction events as [|event events IH]; simpl; [by apply not_elem_of_nil|].
  destruct (getitem_last event); simpl; [|by apply not_elem_of_nil].
  destruct (print_events events ending); simpl in *.
  apply not_elem_of_cons. by split.
Qed.

(** The agent is assembled before the loop, never inside it. *)
Lemma loop_no_assemble graph messages lines llm tools prompt :
  Assemble llm tools prompt ∉ log (invoke_graph_loop graph messages lines).
Proof.
  revert graph messages.
  induction lines as [|line rest IH]; intros graph messages.
  - simpl. by rewrite list_elem_of_singleton.
  - destruct (decide (lower line = "quit")) as [Hq|Hq].
    + rewrite loop_quit by done. simpl.
      rewrite !not_elem_of_cons. repeat split; try done.
      by apply not_elem_of_nil.
    + destruct (astream graph (messages ++ [user_message line]) config)
        as [[events ending] graph'] eqn:Hstream.
      rewrite (loop_turn _ _ _ _ _ _ _ Hq Hstream). simpl.
      rewrite !not_elem_of_cons. repeat split; try done.
      rewrite elem_of_app. intros [Hin|Hin].
      * by apply print_events_no_assemble in Hin.
      * destruct (print_events events ending).2; simpl in Hin.
        -- by apply not_elem_of_nil in Hin.
        -- by apply IH in Hin.
Qed.

End Loop.

(** ** The state machine runs the loop *)

Section Refinement.
Context `{Libraries}.
Import Machine.

(** Expose the first transition of [steps (S n) s]. *)
Ltac first_step :=
  cbn [steps]; unfold step at 1, start;
  cbn [control stdin messages graph done].

Lemma finish_start graph messages lines before :
  finish (start graph messages lines before) =
    after before (invoke_graph_loop graph messages lines).
Proof. done. Qed.

(** A transition does not change the run the state is part of. *)
Lemma step_finish s s' : step s = Some s' → finish s' = finish s.
Proof.
  destruct s as [ctl g msgs lines did]. unfold step, finish. simpl.
  destruct ctl as [|events ending g'| |e]; [| |done|done].
  - destruct lines as [|line rest].
    + intros [= <-]. simpl. unfold after. simpl. done.
    + destruct (decide (lower line = "quit")) as [Hq|Hq].
      * intros [= <-]. simpl. rewrite decide_True by done. done.
      * destruct (astream g (msgs ++ [user_message line]) config)
          as [[events ending] g'] eqn:Hstream.
        intros [= <-]. simpl. rewrite decide_False by done.
        rewrite Hstream.
        destruct (print_events events ending) as [printed [e|]];
          unfold after; simpl; by rewrite <- !app_assoc.
  - destruct events as [|event events].
    + destruct ending as [e|]; intros [= <-]; simpl; unfold after; simpl;
        by rewrite ?app_nil_r.
    + simpl. destruct (getitem_last event) as [m|e]; intros [= <-]; simpl.
      * destruct (print_events events ending) as [printed [e|]];
          unfold after; simpl; by rewrite <- !app_assoc.
      * unfold after. simpl. by rewrite !app_nil_r.
Qed.

Lemma steps_finish n s : finish (steps n s) = finish s.
Proof.
  revert s. induction n as [|n IH]; intros s; [done|]. simpl.
  destruct (step s) as [s'|] eqn:Hstep; [|done].
  rewrite IH. by apply step_finish.
Qed.

(** A state the function is left in is the run itself. *)
Lemma result_finish s r : result s = Some r → finish s = r.
Proof.
  unfold result, finish. destruct (control s); by intros [= <-].
Qed.

Lemma streaming_halts events : ∀ ending g' g msgs lines did,
  (∀ g0 did0, ∃ n, is_Some (result (steps n (start g0 msgs lines did0)))) →
  ∃ n, is_Some (result (steps n
    {| control := STREAMING_RESPONSE events ending g'; graph := g;
       messages := msgs; stdin := lines; done := did |})).
Proof.
  induction events as [|event events IH]; intros ending g' g msgs lines did Hnext.
  - destruct ending as [e|].
    + exists 1. simpl. by eexists.
    + destruct (Hnext g' did) as [n Hn]. by exists (S n).
  - destruct (getitem_last event) as [m|e] eqn:Hlast.
    + destruct (IH ending g' g msgs lines (did ++ [PrettyPrint m]) Hnext)
        as [n Hn].
      exists (S n). first_step. by rewrite Hlast.
    + exists 1. first_step. rewrite Hlast. by eexists.
Qed.

(** The machine leaves the function after finitely many transitions. *)
Lemma awaiting_halts lines : ∀ g msgs did,
  ∃ n, is_Some (result (steps n (start g msgs lines did))).
Proof.
  induction lines as [|line rest IH]; intros g msgs did.
  - exists 1. simpl. by eexists.
  - destruct (decide (lower line = "quit")) as [Hq|Hq].
    + exists 1. first_step. rewrite decide_True by done. by eexists.
    + destruct (astream g (msgs ++ [user_message line]) config)
        as [[events ending] g'] eqn:Hstream.
      destruct (streaming_halts events ending g' g
                  (msgs ++ [user_message line]) rest
                  (did ++ [Prompt "User: "; ReadLine line;
                           Astream (msgs ++ [user_message line]) config]))
        as [n Hn].
      { intros g0 did0. apply IH. }
      exists (S n). first_step. rewrite decide_False by done.
      by rewrite Hstream.
Qed.

(** The machine ends in the state that is the loop's run. *)
Lemma machine_runs_loop graph messages lines :
  ∃ n, result (steps n (start graph messages lines []))
       = Some (invoke_graph_loop graph messages lines).
Proof.
  destruct (awaiting_halts lines graph messages []) as [n [r Hr]].
  exists n. rewrite Hr. f_equal.
  apply result_finish in Hr.
  by rewrite steps_finish, finish_start, after_nil in Hr.
Qed.

End Refinement.

(** ** The quit test *)

Section Quit.

Lemma isspace_lower_char c : SpecWording.isspace c = true → lower_char c = c.
Proof.
  destruct c as [[] [] [] [] [] [] [] []]; intros Hs;
    vm_compute in Hs |- *; (discriminate || reflexivity).
Qed.

Lemma lower_char_letter c (x : ascii) :
  SpecWording.isspace x = false → lower_char c = x →
  SpecWording.isspace c = false.
Proof.
  intros Hx Hc. destruct (SpecWording.isspace c) eqn:Hs; [|done].
  pose proof (isspace_lower_char c Hs). congruence.
Qed.

(** A line the program takes for the quit command has nothing to trim. *)
Lemma quit_has_no_blank line :
  lower line = "quit" → SpecWording.strip line = line.
Proof.
  destruct line as [|c1 [|c2 [|c3 [|c4 [|c5 r]]]]]; cbn [lower];
    try discriminate.
  intros [= H1 H2 H3 H4].
  apply lower_char_letter in H1, H2, H3, H4; try reflexivity.
  unfold SpecWording.strip.
  cbn [SpecWording.lstrip]. rewrite H1.
  cbn [SpecWording.rstrip]. by rewrite H4.
Qed.

(** What the program takes for the quit command is one in the
    specification's words too; the converse fails on [" quit"]. *)
Lemma quit_is_trimmed_quit line :
  lower line = "quit" → SpecWording.trimmed_case_insensitive_quit line.
Proof.
  intros Hq. unfold SpecWording.trimmed_case_insensitive_quit.
  by rewrite quit_has_no_blank.
Qed.

Lemma not_trimmed_quit_is_a_message line :
  ¬ SpecWording.trimmed_case_insensitive_quit line → lower line ≠ "quit".
Proof. intros Hspec Hq. by apply Hspec, quit_is_trimmed_quit. Qed.

End Quit.

(** ** The history *)

Section History.
Context `{Libraries}.
Import Machine.

Lemma step_messages_prefix s s' :
  step s = Some s' → messages s `prefix_of` messages s'.
Proof.
  destruct s as [ctl g msgs lines did]. unfold step. simpl.
  destruct ctl as [|events ending g'| |e]; [| |done|done].
  - destruct lines as [|line rest]; [by intros [= <-]|].
    destruct (decide (lower line = "quit")); [by intros [= <-]|].
    destruct (astream g (msgs ++ [user_message line]) config)
      as [[events ending] g'].
    intros [= <-]. simpl. by apply prefix_app_r.
  - destruct events as [|event events].
    + destruct ending; by intros [= <-].
    + destruct (getitem_last event); by intros [= <-].
Qed.

Lemma steps_messages_prefix n s : messages s `prefix_of` messages (steps n s).
Proof.
  revert s. induction n as [|n IH]; intros s; [done|]. simpl.
  destruct (step s) as [s'|] eqn:Hstep; [|done].
  etrans; [by apply step_messages_prefix|apply IH].
Qed.

End History.

(** * The claims *)

(** C1, as amended: for every input line whose lower-cased form equals
    ["quit"] as it stands, without trimming (["QUIT"], ["Quit"],
    ["quit"]), the loop prints the exit notice and returns; the history
    is the one the turn started with, the agent is not called and the
    lines after it stay unread. *)
Theorem quit_ends_the_loop `{Libraries} graph messages line rest :
  lower line = "quit" →
  invoke_graph_loop graph messages (line :: rest) =
    {| outcome := Ok (); history := messages; unread := rest;
       log := [Prompt "User: "; ReadLine line; Print "Exiting..."] |}
  ∧ ∀ before, ∃ s',
      Machine.step (Machine.start graph messages (line :: rest) before)
        = Some s'
      ∧ Machine.control s' = Machine.TERMINATED
      ∧ Machine.messages s' = messages
      ∧ Machine.step s' = None.
Proof.
  intros Hq. split; [by apply loop_quit|].
  intros before. eexists. unfold Machine.step at 1, Machine.start.
  cbn [Machine.control Machine.stdin]. rewrite decide_True by done.
  by repeat split.
Qed.

Lemma quit_ends_the_loop_witness :
  lower "QUIT" = "quit" ∧
  @invoke_graph_loop (Scripted.libraries (Ok []) Scripted.echo_once)
     Scripted.echo_once [user_message "Hello"] ["QUIT"; "more"] =
    {| outcome := Ok (); history := [user_message "Hello"]; unread := ["more"];
       log := [Prompt "User: "; ReadLine "QUIT"; Print "Exiting..."] |}.
Proof.
  split; [reflexivity|].
  apply (@quit_ends_the_loop (Scripted.libraries (Ok []) Scripted.echo_once)
           Scripted.echo_once [user_message "Hello"] "QUIT" ["more"]).
  reflexivity.
Defined.

(** C1 as stated fails: [" quit"] is the quit command once trimmed, yet
    the loop takes it for a user message, calls the agent and goes on to
    read the next line. *)
Lemma blank_before_quit_is_a_turn :
  SpecWording.trimmed_case_insensitive_quit " quit" ∧
  let L := Scripted.libraries (Ok []) Scripted.echo_once in
  @invoke_graph_loop L Scripted.echo_once [] [" quit"; "quit"] =
    {| outcome := Ok ();
       history := [{| role := "user"; content := " quit" |}];
       unread := [];
       log := [Prompt "User: "; ReadLine " quit";
               Astream [{| role := "user"; content := " quit" |}] config;
               @PrettyPrint L "Hello"; @PrettyPrint L "Hi, how can I help?";
               Prompt "User: "; ReadLine "quit"; Print "Exiting..."] |}.
Proof. split; reflexivity. Qed.

(** C2: for every input line that is not the quit command, the empty line
    included, the loop appends [{role: user, content: <line>}] to the
    history and then calls the agent with that history: the history is one
    entry longer when the agent is called and when the next line is read,
    the new entry sits right after the old ones, its role is ["user"] and
    its content is the line as read. *)
Theorem user_message_appended `{Libraries} graph messages line rest :
  lower line ≠ "quit" →
  let messages' := messages ++ [{| role := "user"; content := line |}] in
  let r := invoke_graph_loop graph messages (line :: rest) in
  (∃ events ending graph',
      astream graph messages' config = (events, ending, graph') ∧
      r = after (Prompt "User: " :: ReadLine line :: Astream messages' config
                   :: (print_events events ending).1)
            match (print_events events ending).2 with
            | Some e =>
                {| outcome := Raise e; history := messages'; unread := rest;
                   log := [] |}
            | None => invoke_graph_loop graph' messages' rest
            end)
  ∧ length messages' = S (length messages)
  ∧ messages' `prefix_of` history r
  ∧ length messages < length (history r)
  ∧ history r !! length messages = Some {| role := "user"; content := line |}.
Proof.
  intros Hq messages' r.
  assert (Hpre : messages' `prefix_of` history r).
  { subst r.
    destruct (astream graph messages' config) as [[events ending] graph']
      eqn:Hstream.
    rewrite (loop_turn _ _ _ _ _ _ _ Hq Hstream). simpl.
    destruct (print_events events ending).2; simpl; [done|].
    apply loop_history_prefix. }
  assert (Hlen : length messages' = S (length messages)).
  { subst messages'. rewrite length_app. simpl. lia. }
  split; [|split; [done|split; [done|split]]].
  - destruct (astream graph messages' config) as [[events ending] graph']
      eqn:Hstream.
    exists events, ending, graph'. split; [done|].
    by apply loop_turn.
  - apply prefix_length in Hpre. lia.
  - eapply prefix_lookup_Some; [|exact Hpre].
    subst messages'. by rewrite list_lookup_middle.
Qed.

Lemma user_message_appended_witness :
  lower EmptyString ≠ "quit" ∧
  let L := Scripted.libraries (Ok []) Scripted.echo_once in
  let r := @invoke_graph_loop L Scripted.echo_once [] [EmptyString; "quit"] in
  length (history r) = 1 ∧
  history r !! 0 = Some {| role := "user"; content := EmptyString |}.
Proof.
  assert (Hq : lower EmptyString ≠ "quit") by discriminate.
  split; [exact Hq|].
  destruct (@user_message_appended
              (Scripted.libraries (Ok []) Scripted.echo_once)
              Scripted.echo_once [] EmptyString ["quit"] Hq)
    as (_ & _ & _ & _ & Hlookup).
  split; [reflexivity|exact Hlookup].
Defined.

(** C3: the history is append-only.  Whatever the turns, the entries the
    history holds at any point are still there afterwards, unchanged and
    at the same positions: for the loop from entry to exit, for each
    transition of the machine, and for any number of transitions. *)
Theorem history_append_only `{Libraries} :
  (∀ graph messages lines,
      messages `prefix_of` history (invoke_graph_loop graph messages lines))
  ∧ (∀ s s', Machine.step s = Some s' →
       Machine.messages s `prefix_of` Machine.messages s')
  ∧ (∀ n s i m, Machine.messages s !! i = Some m →
       Machine.messages (Machine.steps n s) !! i = Some m)
  ∧ (∀ graph messages lines i m, messages !! i = Some m →
       history (invoke_graph_loop graph messages lines) !! i = Some m).
Proof.
  split; [apply loop_history_prefix|].
  split; [apply step_messages_prefix|].
  split.
  - intros n s i m Hi.
    eapply prefix_lookup_Some; [exact Hi|apply steps_messages_prefix].
  - intros graph messages lines i m Hi.
    eapply prefix_lookup_Some; [exact Hi|apply loop_history_prefix].
Qed.

Lemma history_append_only_witness :
  let L := Scripted.libraries (Ok []) Scripted.echo_once in
  let s := @Machine.start L Scripted.echo_once [user_message "earlier"]
             ["Hello"; "again"; "quit"] [] in
  @Machine.messages L s !! 0 = Some (user_message "earlier")
  ∧ @Machine.messages L (@Machine.steps L 6 s) !! 0
      = Some (user_message "earlier")
  ∧ length (@Machine.messages L (@Machine.steps L 6 s)) = 3.
Proof.
  intros L s.
  assert (H0 : @Machine.messages L s !! 0 = Some (user_message "earlier"))
    by reflexivity.
  split; [exact H0|]. split; [|reflexivity].
  exact (proj1 (proj2 (proj2 (@history_append_only L)))
           6 s 0 (user_message "earlier") H0).
Defined.

(** ** From the loop to the process *)

Section Process.
Context `{Libraries}.

(** Once the prompt is loaded and the tools are listed, the program is
    the loop on the assembled agent. *)
Lemma chatbot_started w prompt streams session tools llm graph :
  PROMPT (files w) (encoding w) = Ok prompt →
  stdio_client {| command := "docker"; args := knowledge_args |} = Ok streams →
  initialize streams = Ok session →
  load_mcp_tools session = Ok tools →
  init_chat_model (init_chat_model_args (environ w)) = Ok llm →
  create_react_agent llm tools prompt = Ok graph →
  chatbot w =
    after [Spawn {| command := "docker"; args := knowledge_args |};
           Assemble llm tools prompt]
      (invoke_graph graph (stdin w)).
Proof.
  intros Hprompt Hclient Hinit Htools Hllm Hgraph.
  unfold chatbot, main, create_chatbot.
  by rewrite Hprompt, Hclient, Hinit, Htools, Hllm, Hgraph.
Qed.

(** The loop's run, told from any state the machine passes through. *)
Lemma invoke_graph_from_state graph lines n :
  invoke_graph graph lines =
    Machine.finish (Machine.steps n (Machine.start graph [] lines [])).
Proof.
  by rewrite steps_finish, finish_start, after_nil.
Qed.

(** The one call of [create_react_agent] a run of [main] makes has the
    prompt [main] was given and the model [init_chat_model] returned. *)
Lemma main_assemble prompt environ lines llm tools p :
  Assemble llm tools p ∈ log (main prompt environ lines) →
  p = prompt ∧ init_chat_model (init_chat_model_args environ) = Ok llm.
Proof.
  unfold main, create_chatbot. simpl. rewrite elem_of_cons. intros [[=]|Hin].
  destruct (stdio_client _) as [streams|e];
    [|by apply not_elem_of_nil in Hin].
  destruct (initialize streams) as [session|e];
    [|by apply not_elem_of_nil in Hin].
  destruct (load_mcp_tools session) as [tools'|e];
    [|by apply not_elem_of_nil in Hin].
  destruct (init_chat_model _) as [llm'|e];
    [|by apply not_elem_of_nil in Hin].
  simpl in Hin. apply elem_of_cons in Hin as [[= -> -> ->]|Hin]; [done|].
  destruct (create_react_agent llm' tools' prompt) as [graph|e].
  - by apply loop_no_assemble in Hin.
  - by apply not_elem_of_nil in Hin.
Qed.

End Process.

(** C4: an error raised while the agent's response is streamed, in any
    turn of any run, is caught nowhere: it leaves the loop, [main] and
    [asyncio.run], and the process ends with status 1.  The agent was
    called once for that turn, nothing follows the last snapshot printed
    before the error, and the lines after the failed turn stay unread. *)
Theorem streaming_error_is_fatal `{Libraries}
    w prompt streams session tools llm graph n s line rest events e graph' :
  PROMPT (files w) (encoding w) = Ok prompt →
  stdio_client {| command := "docker"; args := knowledge_args |} = Ok streams →
  initialize streams = Ok session →
  load_mcp_tools session = Ok tools →
  init_chat_model (init_chat_model_args (environ w)) = Ok llm →
  create_react_agent llm tools prompt = Ok graph →
  Machine.steps n (Machine.start graph [] (stdin w) []) = s →
  Machine.control s = Machine.AWAITING_INPUT →
  Machine.stdin s = line :: rest →
  lower line ≠ "quit" →
  astream (Machine.graph s) (Machine.messages s ++ [user_message line]) config
    = (events, Some e, graph') →
  Forall (λ event, event ≠ []) events →
  chatbot w =
    {| outcome := Raise e;
       history := Machine.messages s ++ [user_message line];
       unread := rest;
       log := [Spawn {| command := "docker"; args := knowledge_args |};
               Assemble llm tools prompt]
              ++ Machine.done s
              ++ [Prompt "User: "; ReadLine line;
                  Astream (Machine.messages s ++ [user_message line]) config]
              ++ omap shown events |}
  ∧ exit_status (chatbot w) = 1.
Proof.
  intros Hprompt Hclient Hinit Htools Hllm Hgraph Hsteps Hctl Hlines Hq
    Hstream Hall.
  assert (Hrun : chatbot w =
    {| outcome := Raise e;
       history := Machine.messages s ++ [user_message line];
       unread := rest;
       log := [Spawn {| command := "docker"; args := knowledge_args |};
               Assemble llm tools prompt]
              ++ Machine.done s
              ++ [Prompt "User: "; ReadLine line;
                  Astream (Machine.messages s ++ [user_message line]) config]
              ++ omap shown events |}).
  { rewrite (chatbot_started w prompt streams session tools llm graph) by done.
    rewrite (invoke_graph_from_state _ _ n), Hsteps.
    unfold Machine.finish. rewrite Hctl, Hlines.
    rewrite (loop_turn _ _ _ _ _ _ _ Hq Hstream).
    rewrite print_events_nonempty by done.
    unfold after. simpl. by rewrite app_nil_r. }
  split; [exact Hrun|]. by rewrite Hrun.
Qed.

Lemma streaming_error_is_fatal_witness :
  let L := Scripted.libraries (Ok ["search"]) Scripted.fails_mid_turn in
  let w := {| files := ∅; encoding := decode_ascii; environ := ∅;
              stdin := ["Hello"; "quit"] |} in
  outcome (@chatbot L w) = Raise (ExternalError "APIConnectionError")
  ∧ unread (@chatbot L w) = ["quit"]
  ∧ @exit_status L (@chatbot L w) = 1.
Proof.
  intros L w.
  destruct (@streaming_error_is_fatal L w DEFAULT_PROMPT () () ["search"]
              (init_chat_model_args ∅) Scripted.fails_mid_turn 0
              (@Machine.start L Scripted.fails_mid_turn [] ["Hello"; "quit"] [])
              "Hello" ["quit"] [ ["Hello"] ]
              (ExternalError "APIConnectionError") [])
    as [Hrun Hexit];
    try reflexivity.
  - discriminate.
  - repeat constructor; discriminate.
  - rewrite Hrun. repeat split; reflexivity.
Defined.

(** C5: in a turn, for each snapshot the stream yields the loop prints
    one thing, the last message of the snapshot's list, in the order the
    snapshots come; between the call of the agent and what follows the
    turn, the log holds nothing else.  The printing stops before the end
    of the stream only at a snapshot without any message. *)
Theorem last_message_printed `{Libraries}
    graph messages line rest events ending graph' :
  lower line ≠ "quit" →
  astream graph (messages ++ [user_message line]) config
    = (events, ending, graph') →
  ∃ k tail,
    log (invoke_graph_loop graph messages (line :: rest)) =
      [Prompt "User: "; ReadLine line;
       Astream (messages ++ [user_message line]) config]
      ++ omap (λ event, PrettyPrint <$> last event) (take k events) ++ tail
    ∧ Forall (λ event, event ≠ []) (take k events)
    ∧ length (omap (λ event, PrettyPrint <$> last event) (take k events)) = k
    ∧ ((k = length events ∧
        tail = match ending with
               | Some _ => []
               | None =>
                   log (invoke_graph_loop graph'
                          (messages ++ [user_message line]) rest)
               end)
       ∨ (events !! k = Some [] ∧ tail = [])).
Proof.
  intros Hq Hstream. rewrite (loop_turn _ _ _ _ _ _ _ Hq Hstream).
  fold shown.
  destruct (first_empty_snapshot events)
    as [Hall|(before & events' & -> & Hbefore)].
  - exists (length events). rewrite firstn_all.
    rewrite print_events_nonempty by done. simpl.
    eexists. split; [reflexivity|].
    split; [done|]. split; [by apply length_omap_shown|].
    left. split; [done|]. by destruct ending.
  - exists (length before). rewrite take_app_length.
    rewrite print_events_until_empty by done. simpl.
    exists []. split; [done|].
    split; [done|]. split; [by apply length_omap_shown|].
    right. split; [|done]. by rewrite list_lookup_middle.
Qed.

Lemma last_message_printed_witness :
  let L := Scripted.libraries (Ok []) Scripted.echo_once in
  ∃ k tail,
    log (@invoke_graph_loop L Scripted.echo_once [] ["Hello"; "quit"]) =
      [Prompt "User: "; ReadLine "Hello";
       Astream [user_message "Hello"] config]
      ++ omap (λ event, @PrettyPrint L <$> last event)
           (take k [ ["Hello"]; ["Hello"; "Hi, how can I help?"] ])
      ++ tail
    ∧ k = 2.
Proof.
  intros L.
  assert (Hq : lower "Hello" ≠ "quit") by discriminate.
  destruct (@last_message_printed L Scripted.echo_once [] "Hello" ["quit"]
              [ ["Hello"]; ["Hello"; "Hi, how can I help?"] ] None []
              Hq eq_refl)
    as (k & tail & Hlog & _ & _ & [[Hk _]|[Hk _]]).
  - exists k, tail. split; [exact Hlog|exact Hk].
  - destruct k as [|[|k]]; discriminate Hk.
Defined.

(** ** The prompt *)

Section Prompt.
Context `{Libraries}.

(** The literal of the source: 206 characters on three lines of 79, 72
    and 53. *)
Lemma DEFAULT_PROMPT_shape :
  String.length DEFAULT_PROMPT = 206 ∧
  get 79 DEFAULT_PROMPT = Some "010"%char ∧
  get 152 DEFAULT_PROMPT = Some "010"%char ∧
  substring 153 39 DEFAULT_PROMPT = "    If you don't know the answer, say " +:+ quote.
Proof. repeat split; reflexivity. Qed.

Lemma PROMPT_absent fs locale :
  fs !! "prompt.txt" = None → PROMPT fs locale = Ok DEFAULT_PROMPT.
Proof. intros Hfile. unfold PROMPT, open. by rewrite Hfile. Qed.

Lemma PROMPT_present fs locale bytes X :
  fs !! "prompt.txt" = Some (File bytes) → locale bytes = Some X →
  PROMPT fs locale = Ok (universal_newlines X).
Proof.
  intros Hfile Hdec. unfold PROMPT, open, read. rewrite Hfile. simpl.
  by rewrite Hdec.
Qed.

Lemma PROMPT_undecodable fs locale bytes :
  fs !! "prompt.txt" = Some (File bytes) → locale bytes = None →
  PROMPT fs locale = Raise UnicodeDecodeError.
Proof.
  intros Hfile Hdec. unfold PROMPT, open, read. rewrite Hfile. simpl.
  by rewrite Hdec.
Qed.

Lemma PROMPT_open_fails fs locale e :
  fs !! "prompt.txt" = Some (OpenFails e) →
  PROMPT fs locale =
    if isinstance_FileNotFoundError e then Ok DEFAULT_PROMPT else Raise e.
Proof. intros Hfile. unfold PROMPT, open. by rewrite Hfile. Qed.

Lemma PROMPT_read_fails fs locale e :
  fs !! "prompt.txt" = Some (ReadFails e) →
  PROMPT fs locale =
    if isinstance_FileNotFoundError e then Ok DEFAULT_PROMPT else Raise e.
Proof. intros Hfile. unfold PROMPT, open. by rewrite Hfile. Qed.

Lemma isinstance_FileNotFoundError_true e :
  isinstance_FileNotFoundError e = true → e = FileNotFoundError.
Proof. by destruct e. Qed.

(** Text without a carriage return is read as it is. *)
Lemma universal_newlines_without_CR text :
  CR ∉ list_ascii_of_string text → universal_newlines text = text.
Proof.
  induction text as [|c r IH]; [done|]. simpl.
  rewrite not_elem_of_cons. intros [Hc Hr].
  rewrite decide_False by done. by rewrite IH.
Qed.

(** What is read holds no carriage return. *)
Lemma universal_newlines_drops_CR text :
  CR ∉ list_ascii_of_string (universal_newlines text).
Proof.
  assert (Hn : ∀ (n : nat) text, (String.length text ≤ n)%nat →
                 CR ∉ list_ascii_of_string (universal_newlines text));
    [|by apply (Hn (String.length text))].
  clear text. induction n as [|n IH]; intros text Hlen.
  - destruct text; [apply not_elem_of_nil|simpl in Hlen; lia].
  - destruct text as [|c r]; [apply not_elem_of_nil|]. simpl in *.
    destruct (decide (c = CR)) as [->|Hc]; simpl.
    + apply not_elem_of_cons. split; [done|].
      destruct r as [|c' r']; [apply not_elem_of_nil|]. simpl in Hlen.
      destruct (decide (c' = LF)); apply IH; simpl; lia.
    + apply not_elem_of_cons. split; [done|]. apply IH. lia.
Qed.

Lemma universal_newlines_fixed text :
  universal_newlines text = text ↔ CR ∉ list_ascii_of_string text.
Proof.
  split; [|apply universal_newlines_without_CR].
  intros Heq. rewrite <- Heq. apply universal_newlines_drops_CR.
Qed.

End Prompt.

(** C6, as amended: when the prompt file is absent, the system prompt the
    agent is built with is the built-in default text; when the file is
    there and decodes to the text X, it is X with every carriage return
    and line feed pair, and every carriage return alone, turned into one
    line feed, which is X itself exactly when X holds no carriage return.
    Nothing is trimmed.  The prompt loaded is the one handed to
    [create_react_agent], and the session runs on the agent that call
    returns. *)
Theorem prompt_file_or_default `{Libraries} w :
  (files w !! "prompt.txt" = None →
     PROMPT (files w) (encoding w) = Ok DEFAULT_PROMPT)
  ∧ (∀ bytes X,
       files w !! "prompt.txt" = Some (File bytes) →
       encoding w bytes = Some X →
       PROMPT (files w) (encoding w) = Ok (universal_newlines X)
       ∧ (universal_newlines X = X ↔ CR ∉ list_ascii_of_string X))
  ∧ (∀ P, PROMPT (files w) (encoding w) = Ok P →
       (∀ streams session tools llm graph,
          stdio_client {| command := "docker"; args := knowledge_args |}
            = Ok streams →
          initialize streams = Ok session →
          load_mcp_tools session = Ok tools →
          init_chat_model (init_chat_model_args (environ w)) = Ok llm →
          create_react_agent llm tools P = Ok graph →
          chatbot w =
            after [Spawn {| command := "docker"; args := knowledge_args |};
                   Assemble llm tools P]
              (invoke_graph_loop graph [] (stdin w)))
       ∧ (∀ llm tools p, Assemble llm tools p ∈ log (chatbot w) → p = P)).
Proof.
  split; [apply PROMPT_absent|]. split.
  - intros bytes X Hfile Hdec.
    split; [by eapply PROMPT_present|apply universal_newlines_fixed].
  - intros P Hprompt. split.
    + intros streams session tools llm graph Hclient Hinit Htools Hllm Hgraph.
      by rewrite (chatbot_started w P streams session tools llm graph).
    + intros llm tools p Hin. unfold chatbot in Hin. rewrite Hprompt in Hin.
      by apply main_assemble in Hin as [-> _].
Qed.

Lemma prompt_file_or_default_witness :
  let L := Scripted.libraries (Ok ["search"]) Scripted.echo_once in
  let absent := {| files := ∅; encoding := decode_ascii; environ := ∅;
                   stdin := ["quit"] |} in
  let present := {| files := {[ "prompt.txt" := File "  X " ]};
                    encoding := decode_ascii; environ := ∅;
                    stdin := ["quit"] |} in
  (files absent !! "prompt.txt" = None ∧
   PROMPT (files absent) (encoding absent) = Ok DEFAULT_PROMPT)
  ∧ (files present !! "prompt.txt" = Some (File "  X ") ∧
     encoding present "  X " = Some "  X " ∧
     PROMPT (files present) (encoding present) = Ok (universal_newlines "  X "))
  ∧ @chatbot L present =
      after [Spawn {| command := "docker"; args := knowledge_args |};
             @Assemble L (init_chat_model_args ∅) ["search"] "  X "]
        (@invoke_graph_loop L Scripted.echo_once [] ["quit"]).
Proof.
  intros L absent present.
  assert (Ha : files absent !! "prompt.txt" = None) by reflexivity.
  assert (Hp : files present !! "prompt.txt" = Some (File "  X "))
    by reflexivity.
  assert (Hd : encoding present "  X " = Some "  X ") by reflexivity.
  split; [|split].
  - split; [exact Ha|].
    exact (proj1 (@prompt_file_or_default L absent) Ha).
  - split; [exact Hp|]. split; [exact Hd|].
    exact (proj1 (proj1 (proj2 (@prompt_file_or_default L present))
                    "  X " "  X " Hp Hd)).
  - exact (proj1 (proj2 (proj2 (@prompt_file_or_default L present))
                    "  X " eq_refl)
             () () ["search"] (init_chat_model_args ∅) Scripted.echo_once
             eq_refl eq_refl eq_refl eq_refl eq_refl).
Defined.

(** C6 as stated fails: a prompt file that holds a carriage return is not
    used as it is.  The four characters a, CR, LF, b are read as the
    three characters a, LF, b. *)
Lemma carriage_return_is_translated :
  let X := String "a" (String CR (String LF (String "b" EmptyString))) in
  let fs : gmap string Node := {[ "prompt.txt" := File X ]} in
  fs !! "prompt.txt" = Some (File X)
  ∧ decode_ascii X = Some X
  ∧ PROMPT fs decode_ascii = Ok (String "a" (String LF (String "b" EmptyString)))
  ∧ PROMPT fs decode_ascii ≠ Ok X.
Proof. repeat split; try reflexivity. discriminate. Qed.

(** C9: only [FileNotFoundError] makes the program fall back to the
    default prompt.  Any other error of opening or reading the prompt file
    (a missing permission, bytes that do not decode, say) is not caught:
    the module is left with that error before anything else is done, and
    the process ends with status 1. *)
Theorem prompt_error_aborts `{Libraries} w e :
  files w !! "prompt.txt" = Some (OpenFails e)
    ∨ files w !! "prompt.txt" = Some (ReadFails e)
    ∨ (∃ bytes, files w !! "prompt.txt" = Some (File bytes)
                ∧ encoding w bytes = None ∧ e = UnicodeDecodeError) →
  isinstance_FileNotFoundError e = false →
  PROMPT (files w) (encoding w) = Raise e
  ∧ chatbot w =
      {| outcome := Raise e; history := []; unread := stdin w; log := [] |}
  ∧ exit_status (chatbot w) = 1
  ∧ ∀ fs locale p, PROMPT fs locale = Ok p →
      (∃ bytes text, fs !! "prompt.txt" = Some (File bytes)
                     ∧ locale bytes = Some text
                     ∧ p = universal_newlines text)
      ∨ (p = DEFAULT_PROMPT ∧
         (fs !! "prompt.txt" = None
          ∨ fs !! "prompt.txt" = Some (OpenFails FileNotFoundError)
          ∨ fs !! "prompt.txt" = Some (ReadFails FileNotFoundError))).
Proof.
  intros Hfile Hclass.
  assert (Hprompt : PROMPT (files w) (encoding w) = Raise e).
  { destruct Hfile as [Hfile|[Hfile|(bytes & Hfile & Hdec & ->)]].
    - by rewrite (PROMPT_open_fails _ _ e Hfile), Hclass.
    - by rewrite (PROMPT_read_fails _ _ e Hfile), Hclass.
    - by apply (PROMPT_undecodable _ _ bytes). }
  assert (Hrun : chatbot w = unwound e (stdin w)).
  { unfold chatbot. by rewrite Hprompt. }
  split; [done|]. split; [done|]. split; [by rewrite Hrun|].
  intros fs locale p. unfold PROMPT, open, read.
  destruct (fs !! "prompt.txt") as [[bytes|e'|e']|] eqn:Hnode; simpl.
  - destruct (locale bytes) as [text|] eqn:Hdec; simpl; [|done].
    intros [= <-]. left. by exists bytes, text.
  - destruct (isinstance_FileNotFoundError e') eqn:He'; [|done].
    apply isinstance_FileNotFoundError_true in He' as ->.
    intros [= <-]. right. split; [done|]. right. by left.
  - destruct (isinstance_FileNotFoundError e') eqn:He'; [|done].
    apply isinstance_FileNotFoundError_true in He' as ->.
    intros [= <-]. right. split; [done|]. right. by right.
  - intros [= <-]. right. split; [done|]. by left.
Qed.

Lemma prompt_error_aborts_witness :
  let L := Scripted.libraries (Ok ["search"]) Scripted.echo_once in
  let w := {| files := {[ "prompt.txt" := OpenFails PermissionError ]};
              encoding := decode_ascii; environ := ∅;
              stdin := ["Hello"; "quit"] |} in
  (files w !! "prompt.txt" = Some (OpenFails PermissionError)
   ∨ files w !! "prompt.txt" = Some (ReadFails PermissionError)
   ∨ (∃ bytes, files w !! "prompt.txt" = Some (File bytes)
               ∧ encoding w bytes = None
               ∧ PermissionError = UnicodeDecodeError))
  ∧ isinstance_FileNotFoundError PermissionError = false
  ∧ @chatbot L w =
      {| outcome := Raise PermissionError; history := [];
         unread := ["Hello"; "quit"]; log := [] |}.
Proof.
  intros L w.
  assert (Hfile : files w !! "prompt.txt" = Some (OpenFails PermissionError)
                  ∨ files w !! "prompt.txt" = Some (ReadFails PermissionError)
                  ∨ (∃ bytes, files w !! "prompt.txt" = Some (File bytes)
                              ∧ encoding w bytes = None
                              ∧ PermissionError = UnicodeDecodeError))
    by (left; reflexivity).
  split; [exact Hfile|]. split; [reflexivity|].
  exact (proj1 (proj2 (@prompt_error_aborts L w PermissionError Hfile eq_refl))).
Defined.

(** C7: the loop is strictly sequential.  A line is read only in
    AWAITING_INPUT; the quit command leads from there to TERMINATED, any
    other line to STREAMING_RESPONSE on the stream the agent answers with;
    while streaming no line is read, each transition takes the next
    snapshot, and AWAITING_INPUT is entered again only once that stream is
    exhausted without error.  (Input that has run out and an error while
    streaming leave the loop by an exception.)  The machine that moves this
    way ends, for any agent and input, in the run of [invoke_graph]'s
    loop. *)
Theorem turns_do_not_overlap `{Libraries} :
  (∀ s s', Machine.step s = Some s' →
     match Machine.control s with
     | Machine.AWAITING_INPUT =>
         match Machine.stdin s with
         | [] => Machine.control s' = Machine.UNWINDING EOFError
         | line :: rest =>
             Machine.stdin s' = rest ∧
             if decide (lower line = "quit")
             then Machine.control s' = Machine.TERMINATED
             else ∃ events ending graph',
               astream (Machine.graph s)
                 (Machine.messages s ++ [user_message line]) config
                 = (events, ending, graph')
               ∧ Machine.control s'
                 = Machine.STREAMING_RESPONSE events ending graph'
         end
     | Machine.STREAMING_RESPONSE events ending graph' =>
         Machine.stdin s' = Machine.stdin s ∧
         match Machine.control s' with
         | Machine.AWAITING_INPUT =>
             events = [] ∧ ending = None ∧ Machine.graph s' = graph'
         | Machine.STREAMING_RESPONSE events' ending' graph'' =>
             (∃ event, events = event :: events')
             ∧ ending' = ending ∧ graph'' = graph'
         | Machine.TERMINATED => False
         | Machine.UNWINDING e =>
             (events = [] ∧ ending = Some e)
             ∨ (∃ events', events = [] :: events' ∧ e = IndexError)
         end
     | Machine.TERMINATED => False
     | Machine.UNWINDING _ => False
     end)
  ∧ (∀ graph messages lines,
       ∃ n, Machine.result
              (Machine.steps n (Machine.start graph messages lines []))
            = Some (invoke_graph_loop graph messages lines)).
Proof.
  split; [|apply machine_runs_loop].
  intros [ctl g msgs lines did] s'. unfold Machine.step. simpl.
  destruct ctl as [|events ending g'| |e]; [| |done|done].
  - destruct lines as [|line rest]; [by intros [= <-]|].
    destruct (decide (lower line = "quit")) as [Hq|Hq]; [by intros [= <-]|].
    destruct (astream g (msgs ++ [user_message line]) config)
      as [[events ending] g'] eqn:Hstream.
    intros [= <-]. simpl. split; [done|]. by exists events, ending, g'.
  - destruct events as [|event events].
    + destruct ending as [e|]; intros [= <-]; simpl; split; try done.
      by left.
    + unfold getitem_last.
      destruct (last event) as [m|] eqn:Hlast; intros [= <-]; simpl.
      * split; [done|]. split; [by exists event|done].
      * split; [done|]. right. apply last_None in Hlast as ->.
        by exists events.
Qed.

Lemma turns_do_not_overlap_witness :
  let L := Scripted.libraries (Ok []) Scripted.echo_once in
  let s := @Machine.start L Scripted.echo_once [] ["Hello"; "quit"] [] in
  @Machine.control L (@Machine.steps L 1 s)
    = Machine.STREAMING_RESPONSE
        [ ["Hello"]; ["Hello"; "Hi, how can I help?"] ] None []
  ∧ @Machine.stdin L (@Machine.steps L 3 s) = @Machine.stdin L (@Machine.steps L 2 s)
  ∧ ∃ n, @Machine.result L (@Machine.steps L n s)
         = Some (@invoke_graph_loop L Scripted.echo_once [] ["Hello"; "quit"]).
Proof.
  intros L s.
  pose proof (@turns_do_not_overlap L) as [Hstep Hruns].
  split; [reflexivity|]. split.
  - exact (proj1 (Hstep (@Machine.steps L 2 s) (@Machine.steps L 3 s) eq_refl)).
  - exact (Hruns Scripted.echo_once [] ["Hello"; "quit"]).
Defined.

(** C8: the model is set up from three environment settings, the model
    identifier, the base URL and the API key; each one that is unset is
    replaced by a fixed value, the base URL by ["http://localhost:8080"],
    and each one that is set is used as it is. *)
Theorem model_settings_fallback `{Libraries} (environ : gmap string string) :
  (environ !! "LLM_API_MODEL" = None →
     model (init_chat_model_args environ) = "anthropic:claude-4-sonnet-latest")
  ∧ (environ !! "LLM_API_URL" = None →
       base_url (init_chat_model_args environ) = "http://localhost:8080")
  ∧ (environ !! "LLM_API_KEY" = None →
       api_key (init_chat_model_args environ) = "test")
  ∧ (∀ v, environ !! "LLM_API_MODEL" = Some v →
       model (init_chat_model_args environ) = v)
  ∧ (∀ v, environ !! "LLM_API_URL" = Some v →
       base_url (init_chat_model_args environ) = v)
  ∧ (∀ v, environ !! "LLM_API_KEY" = Some v →
       api_key (init_chat_model_args environ) = v)
  ∧ (∀ prompt tools,
       create_chatbot environ prompt tools =
         match init_chat_model (init_chat_model_args environ) with
         | Raise e => ([], Raise e)
         | Ok llm =>
             ([Assemble llm tools prompt],
              create_react_agent llm tools prompt)
         end).
Proof.
  unfold create_chatbot, init_chat_model_args, getenv. simpl.
  repeat split; try (intros ? ->; done); by intros ->.
Qed.

Lemma model_settings_fallback_witness :
  let environ : gmap string string := {[ "LLM_API_KEY" := "sk-secret" ]} in
  base_url (init_chat_model_args environ) = "http://localhost:8080"
  ∧ model (init_chat_model_args environ) = "anthropic:claude-4-sonnet-latest"
  ∧ api_key (init_chat_model_args environ) = "sk-secret".
Proof.
  intros environ.
  pose proof (@model_settings_fallback
                (Scripted.libraries (Ok []) Scripted.echo_once) environ)
    as (Hmodel & Hurl & _ & _ & _ & Hkey & _).
  split; [exact (Hurl eq_refl)|].
  split; [exact (Hmodel eq_refl)|].
  exact (Hkey "sk-secret" eq_refl).
Defined.

(** C10: the printing step indexes the last message without a guard.  The
    first snapshot with an empty message list makes the turn raise
    [IndexError]: the snapshots before it were printed, nothing is printed
    for it, and the loop is left.  When every snapshot holds a message the
    indexing succeeds on each of them, and the turn ends the way the
    stream ends. *)
Theorem empty_snapshot_raises `{Libraries} :
  (∀ graph messages line rest before events' ending graph',
     lower line ≠ "quit" →
     astream graph (messages ++ [user_message line]) config
       = (before ++ [] :: events', ending, graph') →
     Forall (λ event, event ≠ []) before →
     invoke_graph_loop graph messages (line :: rest) =
       {| outcome := Raise IndexError;
          history := messages ++ [user_message line];
          unread := rest;
          log := [Prompt "User: "; ReadLine line;
                  Astream (messages ++ [user_message line]) config]
                 ++ omap (λ event, PrettyPrint <$> last event) before |})
  ∧ (∀ events ending,
       Forall (λ event, event ≠ []) events →
       print_events events ending
         = (omap (λ event, PrettyPrint <$> last event) events, ending)
       ∧ ∀ event, event ∈ events → ∃ m, getitem_last event = Ok m).
Proof.
  split.
  - intros graph messages line rest before events' ending graph'
      Hq Hstream Hbefore.
    rewrite (loop_turn _ _ _ _ _ _ _ Hq Hstream).
    rewrite print_events_until_empty by done.
    unfold after. simpl. by rewrite app_nil_r.
  - intros events ending Hall. split; [by apply print_events_nonempty|].
    intros event Hin. rewrite Forall_forall in Hall.
    destruct (getitem_last_nonempty event (Hall _ Hin)) as (m & _ & Hm).
    by exists m.
Qed.

Lemma empty_snapshot_raises_witness :
  let L := Scripted.libraries (Ok []) Scripted.empty_snapshot in
  lower "Hello" ≠ "quit"
  ∧ @invoke_graph_loop L Scripted.empty_snapshot [] ["Hello"; "quit"] =
      {| outcome := Raise IndexError;
         history := [user_message "Hello"];
         unread := ["quit"];
         log := [Prompt "User: "; ReadLine "Hello";
                 Astream [user_message "Hello"] config;
                 @PrettyPrint L "Hello"] |}
  ∧ @print_events L [ ["a"]; ["a"; "b"] ] None
      = ([@PrettyPrint L "a"; @PrettyPrint L "b"], None).
Proof.
  intros L.
  assert (Hq : lower "Hello" ≠ "quit") by discriminate.
  pose proof (@empty_snapshot_raises L) as [Hraise Hfine].
  split; [exact Hq|]. split.
  - apply (Hraise Scripted.empty_snapshot [] "Hello" ["quit"]
             [ ["Hello"] ] [ ["never reached"] ] None [] Hq eq_refl).
    repeat constructor. discriminate.
  - apply (Hfine [ ["a"]; ["a"; "b"] ] None).
    repeat constructor; discriminate.
Defined.

(** * Further properties of the loop *)

Section LoopInduction.
Context `{Libraries}.

(** Induction over the iterations of [while True]: the input has run out,
    the line is the quit command, the turn raises, or the turn completes
    and the loop goes on. *)
Lemma loop_ind (P : Graph → list Message → list string → Run → Prop) :
  (∀ graph messages,
     P graph messages []
       {| outcome := Raise EOFError; history := messages; unread := [];
          log := [Prompt "User: "] |}) →
  (∀ graph messages line rest,
     lower line = "quit" →
     P graph messages (line :: rest)
       {| outcome := Ok (); history := messages; unread := rest;
          log := [Prompt "User: "; ReadLine line; Print "Exiting..."] |}) →
  (∀ graph messages line rest events ending graph' e,
     lower line ≠ "quit" →
     astream graph (messages ++ [user_message line]) config
       = (events, ending, graph') →
     (print_events events ending).2 = Some e →
     P graph messages (line :: rest)
       {| outcome := Raise e; history := messages ++ [user_message line];
          unread := rest;
          log := Prompt "User: " :: ReadLine line
                 :: Astream (messages ++ [user_message line]) config
                 :: (print_events events ending).1 |}) →
  (∀ graph messages line rest events ending graph',
     lower line ≠ "quit" →
     astream graph (messages ++ [user_message line]) config
       = (events, ending, graph') →
     (print_events events ending).2 = None →
     P graph' (messages ++ [user_message line]) rest
       (invoke_graph_loop graph' (messages ++ [user_message line]) rest) →
     P graph messages (line :: rest)
       (after (Prompt "User: " :: ReadLine line
                 :: Astream (messages ++ [user_message line]) config
                 :: (print_events events ending).1)
          (invoke_graph_loop graph' (messages ++ [user_message line]) rest))) →
  ∀ graph messages lines,
    P graph messages lines (invoke_graph_loop graph messages lines).
Proof.
  intros Heof Hquit Hraise Hturn graph messages lines.
  revert graph messages.
  induction lines as [|line rest IH]; intros graph messages; [apply Heof|].
  destruct (decide (lower line = "quit")) as [Hq|Hq].
  - rewrite loop_quit by done. by apply Hquit.
  - destruct (astream graph (messages ++ [user_message line]) config)
      as [[events ending] graph'] eqn:Hstream.
    rewrite (loop_turn _ _ _ _ _ _ _ Hq Hstream).
    destruct (print_events events ending).2 as [e|] eqn:Hraised.
    + unfold after. simpl. rewrite app_nil_r.
      by eapply Hraise.
    + eapply Hturn; [done..|]. apply IH.
Qed.

Lemma reads_printed events ending : reads (print_events events ending).1 = [].
Proof.
  induction events as [|event events IH]; [done|]. simpl.
  destruct (getitem_last event); [|done].
  by destruct (print_events events ending).
Qed.

Lemma calls_printed events ending : calls (print_events events ending).1 = [].
Proof.
  induction events as [|event events IH]; [done|]. simpl.
  destruct (getitem_last event); [|done].
  by destruct (print_events events ending).
Qed.

Lemma reads_turn text line msgs cfg events ending l :
  reads (Prompt text :: ReadLine line :: Astream msgs cfg
           :: (print_events events ending).1 ++ l)
  = line :: reads l.
Proof.
  unfold reads. simpl. f_equal. rewrite omap_app.
  fold (reads (print_events events ending).1). by rewrite reads_printed.
Qed.

Lemma calls_turn text line msgs cfg events ending l :
  calls (Prompt text :: ReadLine line :: Astream msgs cfg
           :: (print_events events ending).1 ++ l)
  = (msgs, cfg) :: calls l.
Proof.
  unfold calls. simpl. f_equal. rewrite omap_app.
  fold (calls (print_events events ending).1). by rewrite calls_printed.
Qed.

Lemma last_printed events ending text :
  last (print_events events ending).1 ≠ Some (Print text).
Proof.
  induction events as [|event events IH]; [done|]. simpl.
  destruct (getitem_last event) as [m|e]; [|done].
  destruct (print_events events ending) as [printed raised]. simpl in *.
  destruct printed; [done|]. by rewrite last_cons_cons.
Qed.

Lemma loop_log_nonempty graph messages lines :
  log (invoke_graph_loop graph messages lines) ≠ [].
Proof. destruct lines; simpl; [done|]. case_decide; [done|].
  destruct (astream _ _ _) as [[events ending] graph'].
  by destruct (print_events events ending).
Qed.

End LoopInduction.

(** Project the fields of a run without unfolding what reads its log. *)
Ltac run_fields := cbn beta; cbn [log unread history outcome after app].

(** X1: the loop takes the lines of standard input in order, one per
    iteration, and leaves the rest: the lines it read, followed by the
    lines it left unread, are the input. *)
Theorem reads_then_unread `{Libraries} graph messages lines :
  let r := invoke_graph_loop graph messages lines in
  reads (log r) ++ unread r = lines.
Proof.
  simpl. apply (loop_ind (λ _ _ lines r, reads (log r) ++ unread r = lines)).
  - done.
  - done.
  - intros g m line rest events ending g' e _ _ _. run_fields.
    rewrite <- (app_nil_r (print_events events ending).1), reads_turn.
    done.
  - intros g m line rest events ending g' _ _ _ IH. run_fields.
    rewrite reads_turn. simpl. by rewrite IH.
Qed.

(** X2: the history the loop leaves is the one it started with followed
    by one user message per line read that is not the quit command, in the
    order read, with the line as content.  Nothing the agent answers and
    no quit command ever enters it. *)
Theorem history_is_lines_read `{Libraries} graph messages lines :
  let r := invoke_graph_loop graph messages lines in
  history r =
    messages ++
    ((λ line, {| role := "user"; content := line |}) <$>
       filter (λ line, lower line ≠ "quit") (reads (log r))).
Proof.
  simpl.
  apply (loop_ind (λ _ messages _ r,
    history r = messages ++ (user_message <$>
       filter (λ line, lower line ≠ "quit") (reads (log r))))).
  - intros g m. simpl. by rewrite app_nil_r.
  - intros g m line rest Hq. simpl.
    change (reads [Prompt "User: "; ReadLine line; Print "Exiting..."])
      with [line].
    rewrite filter_cons_False by (by intros Hne). simpl.
    by rewrite app_nil_r.
  - intros g m line rest events ending g' e Hq _ _. run_fields.
    rewrite <- (app_nil_r (print_events events ending).1), reads_turn.
    by rewrite filter_cons_True.
  - intros g m line rest events ending g' Hq _ _ IH. run_fields.
    rewrite reads_turn, filter_cons_True by done.
    rewrite IH, <- app_assoc. done.
Qed.

(** X3: every call of the agent is made under thread id ["1"] and is
    handed the whole history as it stands: the k-th call of a run gets
    the initial entries and the first k+1 appended ones.  There are as
    many calls as appended entries. *)
Theorem calls_carry_whole_history `{Libraries} graph messages lines :
  let r := invoke_graph_loop graph messages lines in
  length (calls (log r)) + length messages = length (history r)
  ∧ ∀ k msgs cfg, calls (log r) !! k = Some (msgs, cfg) →
      cfg = {| thread_id := "1" |}
      ∧ msgs = take (length messages + S k) (history r).
Proof.
  simpl.
  apply (loop_ind (λ _ messages _ r,
    length (calls (log r)) + length messages = length (history r)
    ∧ ∀ k msgs cfg, calls (log r) !! k = Some (msgs, cfg) →
        cfg = config ∧ msgs = take (length messages + S k) (history r))).
  - intros g m. by split.
  - intros g m line rest _. by split.
  - intros g m line rest events ending g' e _ _ _. run_fields.
    rewrite <- (app_nil_r (print_events events ending).1), calls_turn.
    split; [rewrite length_app; simpl; lia|].
    intros [|k] msgs cfg; [|done]. intros [= <- <-]. split; [done|].
    rewrite take_ge; [done|]. rewrite length_app. simpl. lia.
  - intros g m line rest events ending g' _ _ _ [IHlen IH]. run_fields.
    rewrite calls_turn. rewrite length_app in IHlen. simpl in *.
    split; [lia|].
    intros [|k] msgs cfg.
    + intros [= <- <-]. split; [done|].
      destruct (loop_history_prefix g' (m ++ [user_message line]) rest)
        as [tail ->].
      rewrite take_app_length'; [done|]. rewrite length_app. simpl. lia.
    + intros Hk. destruct (IH k msgs cfg Hk) as [-> ->]. split; [done|].
      f_equal. rewrite length_app. simpl. lia.
Qed.

(** X4: the loop returns normally exactly when the last line it read is
    the quit command, and exactly then the last thing it does is to print
    the exit notice; any other way out is an exception. *)
Theorem normal_exit_iff_quit `{Libraries} graph messages lines :
  let r := invoke_graph_loop graph messages lines in
  (outcome r = Ok () ↔
     ∃ line, last (reads (log r)) = Some line ∧ lower line = "quit")
  ∧ (outcome r = Ok () ↔ last (log r) = Some (Print "Exiting..."))
  ∧ (exit_status r = 0 ↔ outcome r = Ok ()).
Proof.
  simpl.
  apply (loop_ind (λ _ _ _ r,
    (outcome r = Ok () ↔
       ∃ line, last (reads (log r)) = Some line ∧ lower line = "quit")
    ∧ (outcome r = Ok () ↔ last (log r) = Some (Print "Exiting..."))
    ∧ (exit_status r = 0 ↔ outcome r = Ok ()))).
  - intros g m. simpl. split; [|done]. split; [done|]. by intros (? & ? & _).
  - intros g m line rest Hq. simpl. split; [|done].
    split; [|done]. intros _. by exists line.
  - intros g m line rest events ending g' e Hq _ _.
    unfold exit_status. run_fields.
    rewrite <- (app_nil_r (print_events events ending).1), reads_turn.
    rewrite app_nil_r. split; [|split].
    + split; [done|]. intros (l & [= <-] & Hl). done.
    + split; [done|]. intros Hlast.
      destruct (print_events events ending).1 as [|a printed] eqn:Hprinted;
        [done|].
      rewrite !last_cons_cons in Hlast. exfalso.
      apply (last_printed events ending "Exiting..."). by rewrite Hprinted.
    + done.
  - intros g m line rest events ending g' Hq _ _ (IHread & IHlast & IHexit).
    unfold exit_status in *. run_fields. rewrite reads_turn.
    split; [|split; [|done]].
    + rewrite IHread. rewrite last_cons.
      destruct (last (reads _)) as [l|]; [done|].
      split; [by intros (? & ? & _)|]. intros (l & [= <-] & Hl). done.
    + rewrite IHlast.
      rewrite !app_comm_cons, last_app.
      pose proof (loop_log_nonempty g' (m ++ [user_message line]) rest) as Hne.
      apply last_is_Some in Hne as [a ->]. done.
Qed.

Lemma calls_carry_whole_history_witness :
  let L := Scripted.libraries (Ok []) Scripted.echo_once in
  let r := @invoke_graph_loop L Scripted.echo_once [] ["a"; "b"; "quit"] in
  @calls L (log r) !! 1 = Some ([user_message "a"; user_message "b"], config)
  ∧ [user_message "a"; user_message "b"] = take (0 + 2) (history r).
Proof.
  intros L r.
  assert (Hcall : @calls L (log r) !! 1
                  = Some ([user_message "a"; user_message "b"], config))
    by reflexivity.
  split; [exact Hcall|].
  exact (proj2 (proj2 (@calls_carry_whole_history L Scripted.echo_once []
                         ["a"; "b"; "quit"]) 1 _ _ Hcall)).
Defined.

Lemma normal_exit_iff_quit_witness :
  let L := Scripted.libraries (Ok []) Scripted.echo_once in
  let r := @invoke_graph_loop L Scripted.echo_once [] ["a"; "Quit"; "b"] in
  last (log r) = Some (Print "Exiting...") ∧ outcome r = Ok ().
Proof.
  intros L r.
  assert (Hlast : last (log r) = Some (Print "Exiting...")) by reflexivity.
  split; [exact Hlast|].
  exact (proj2 (proj1 (proj2 (@normal_exit_iff_quit L Scripted.echo_once []
                                ["a"; "Quit"; "b"]))) Hlast).
Defined.

(** ** With an agent that never fails *)

Section Dependable.
Context `{Libraries}.

Lemma dependable_turn graph messages line rest :
  dependable → lower line ≠ "quit" →
  ∃ events graph',
    invoke_graph_loop graph messages (line :: rest) =
      after (Prompt "User: " :: ReadLine line
               :: Astream (messages ++ [user_message line]) config
               :: omap shown events)
        (invoke_graph_loop graph' (messages ++ [user_message line]) rest).
Proof.
  intros Hdep Hq.
  destruct (Hdep graph (messages ++ [user_message line]) config)
    as (events & graph' & Hstream & Hall).
  exists events, graph'.
  rewrite (loop_turn _ _ _ _ _ _ _ Hq Hstream).
  by rewrite print_events_nonempty.
Qed.

Lemma reads_shown (events : list (list AnyMessage)) l :
  reads (omap shown events ++ l) = reads l.
Proof.
  induction events as [|event events IH]; [done|]. simpl.
  unfold shown at 1. by destruct (last event).
Qed.

Lemma calls_shown (events : list (list AnyMessage)) l :
  calls (omap shown events ++ l) = calls l.
Proof.
  induction events as [|event events IH]; [done|]. simpl.
  unfold shown at 1. by destruct (last event).
Qed.

Lemma reads_turn_shown text line msgs cfg (events : list (list AnyMessage)) l :
  reads (Prompt text :: ReadLine line :: Astream msgs cfg
           :: omap shown events ++ l)
  = line :: reads l.
Proof.
  change (line :: reads (omap shown events ++ l) = line :: reads l).
  by rewrite reads_shown.
Qed.

Lemma calls_turn_shown text line msgs cfg (events : list (list AnyMessage)) l :
  calls (Prompt text :: ReadLine line :: Astream msgs cfg
           :: omap shown events ++ l)
  = (msgs, cfg) :: calls l.
Proof.
  change ((msgs, cfg) :: calls (omap shown events ++ l)
          = (msgs, cfg) :: calls l).
  by rewrite calls_shown.
Qed.

End Dependable.

Lemma Echo_dependable : @dependable Echo.libraries.
Proof.
  intros graph messages cfg. exists [messages ++ [{| role := "assistant"; content := "ok" |}]], ().
  split; [done|]. repeat constructor. by destruct messages.
Qed.

(** X5: with an agent that never fails, the first quit command ends the
    session normally: every line before it has become a user message, in
    order, each after one call of the agent, and the lines after it are
    not read. *)
Theorem first_quit_ends_session `{Libraries} graph messages before line rest :
  dependable →
  Forall (λ l, lower l ≠ "quit") before →
  lower line = "quit" →
  let r := invoke_graph_loop graph messages (before ++ line :: rest) in
  outcome r = Ok ()
  ∧ history r = messages ++ (user_message <$> before)
  ∧ unread r = rest
  ∧ reads (log r) = before ++ [line]
  ∧ length (calls (log r)) = length before.
Proof.
  intros Hdep Hbefore Hq. simpl. revert graph messages.
  induction Hbefore as [|l before Hl _ IH]; intros graph messages.
  - cbn [app]. rewrite loop_quit by done. simpl.
    by rewrite app_nil_r.
  - rewrite <- app_comm_cons.
    destruct (dependable_turn graph messages l (before ++ line :: rest)
                Hdep Hl) as (events & graph' & ->).
    destruct (IH graph' (messages ++ [user_message l]))
      as (Hout & Hhist & Hunread & Hreads & Hcalls).
    run_fields.
    rewrite reads_turn_shown, calls_turn_shown, Hreads, Hhist.
    cbn [length]. rewrite Hcalls.
    repeat split; try done. by rewrite <- app_assoc.
Qed.

Lemma first_quit_ends_session_witness :
  let r := @invoke_graph_loop Echo.libraries () []
             (["Hello"; " quit"] ++ "QUIT" :: ["late"]) in
  outcome r = Ok ()
  ∧ history r = [user_message "Hello"; user_message " quit"]
  ∧ unread r = ["late"].
Proof.
  intros r.
  assert (Hbefore : Forall (λ l, lower l ≠ "quit") ["Hello"; " quit"])
    by (repeat constructor; discriminate).
  destruct (@first_quit_ends_session Echo.libraries () []
              ["Hello"; " quit"] "QUIT" ["late"]
              Echo_dependable Hbefore eq_refl)
    as (Hout & Hhist & Hunread & _).
  split; [exact Hout|]. split; [exact Hhist|exact Hunread].
Defined.

(** X6: with an agent that never fails, input that ends without a quit
    command ends the session by [EOFError] from [input]: every line has
    become a user message, and the process exits with status 1 after one
    more prompt. *)
Theorem end_of_input_raises `{Libraries} graph messages lines :
  dependable →
  Forall (λ l, lower l ≠ "quit") lines →
  let r := invoke_graph_loop graph messages lines in
  outcome r = Raise EOFError
  ∧ history r = messages ++ (user_message <$> lines)
  ∧ unread r = []
  ∧ last (log r) = Some (Prompt "User: ")
  ∧ exit_status r = 1.
Proof.
  intros Hdep Hlines. simpl. revert graph messages.
  induction Hlines as [|l lines Hl _ IH]; intros graph messages.
  - simpl. by rewrite app_nil_r.
  - destruct (dependable_turn graph messages l lines Hdep Hl)
      as (events & graph' & ->).
    destruct (IH graph' (messages ++ [user_message l]))
      as (Hout & Hhist & Hunread & Hlast & Hexit).
    unfold exit_status in *. run_fields.
    rewrite Hout, Hhist, Hunread, <- app_assoc.
    repeat split; try done.
    by rewrite !app_comm_cons, last_app, Hlast.
Qed.

Lemma end_of_input_raises_witness :
  let r := @invoke_graph_loop Echo.libraries () [] ["Hello"; "bye"] in
  outcome r = Raise EOFError
  ∧ history r = [user_message "Hello"; user_message "bye"].
Proof.
  intros r.
  assert (Hlines : Forall (λ l, lower l ≠ "quit") ["Hello"; "bye"])
    by (repeat constructor; discriminate).
  destruct (@end_of_input_raises Echo.libraries () [] ["Hello"; "bye"]
              Echo_dependable Hlines)
    as (Hout & Hhist & _).
  split; [exact Hout|exact Hhist].
Defined.

(** ** Which lines are the quit command *)

Section Spellings.

Lemma lower_char_q c : lower_char c = "q"%char → c = "q"%char ∨ c = "Q"%char.
Proof.
  destruct c as [[] [] [] [] [] [] [] []]; vm_compute; intros Hc;
    (discriminate Hc || (left; reflexivity) || (right; reflexivity)).
Qed.

Lemma lower_char_u c : lower_char c = "u"%char → c = "u"%char ∨ c = "U"%char.
Proof.
  destruct c as [[] [] [] [] [] [] [] []]; vm_compute; intros Hc;
    (discriminate Hc || (left; reflexivity) || (right; reflexivity)).
Qed.

Lemma lower_char_i c : lower_char c = "i"%char → c = "i"%char ∨ c = "I"%char.
Proof.
  destruct c as [[] [] [] [] [] [] [] []]; vm_compute; intros Hc;
    (discriminate Hc || (left; reflexivity) || (right; reflexivity)).
Qed.

Lemma lower_char_t c : lower_char c = "t"%char → c = "t"%char ∨ c = "T"%char.
Proof.
  destruct c as [[] [] [] [] [] [] [] []]; vm_compute; intros Hc;
    (discriminate Hc || (left; reflexivity) || (right; reflexivity)).
Qed.

End Spellings.

(** X7: the lines the loop takes for the quit command are the sixteen
    spellings of q-u-i-t in either case and no other line: four
    characters, each the letter or its capital, nothing before or after. *)
Theorem quit_spellings line :
  lower line = "quit" ↔
  ∃ c1 c2 c3 c4,
    line = String c1 (String c2 (String c3 (String c4 EmptyString)))
    ∧ (c1 = "q"%char ∨ c1 = "Q"%char)
    ∧ (c2 = "u"%char ∨ c2 = "U"%char)
    ∧ (c3 = "i"%char ∨ c3 = "I"%char)
    ∧ (c4 = "t"%char ∨ c4 = "T"%char).
Proof.
  split.
  - destruct line as [|c1 [|c2 [|c3 [|c4 [|c5 r]]]]]; cbn [lower];
      try discriminate.
    intros [= H1 H2 H3 H4]. exists c1, c2, c3, c4.
    split; [done|].
    split; [by apply lower_char_q|]. split; [by apply lower_char_u|].
    split; [by apply lower_char_i|by apply lower_char_t].
  - intros (c1 & c2 & c3 & c4 & -> & [-> | ->] & [-> | ->] & [-> | ->]
            & [-> | ->]); reflexivity.
Qed.

Lemma quit_spellings_witness :
  lower "qUiT" = "quit"
  ∧ ∃ c1 c2 c3 c4,
      "qUiT" = String c1 (String c2 (String c3 (String c4 EmptyString)))
      ∧ (c1 = "q"%char ∨ c1 = "Q"%char)
      ∧ (c2 = "u"%char ∨ c2 = "U"%char)
      ∧ (c3 = "i"%char ∨ c3 = "I"%char)
      ∧ (c4 = "t"%char ∨ c4 = "T"%char).
Proof.
  assert (Hq : lower "qUiT" = "quit") by reflexivity.
  split; [exact Hq|]. exact (proj1 (quit_spellings "qUiT") Hq).
Defined.

(** X8: a turn goes through, and the loop asks for the next line, exactly
    when the stream ends without error and none of its snapshots is
    empty.  Otherwise what is raised is the stream's own error, after all
    its snapshots were printed, or [IndexError] at the first empty
    snapshot. *)
Theorem turn_completes_iff `{Libraries} events ending :
  ((print_events events ending).2 = None ↔
     ending = None ∧ Forall (λ event, event ≠ []) events)
  ∧ ∀ e, (print_events events ending).2 = Some e →
      (ending = Some e ∧ Forall (λ event, event ≠ []) events
       ∧ (print_events events ending).1 = omap shown events)
      ∨ (e = IndexError ∧ ∃ before events',
           events = before ++ [] :: events'
           ∧ Forall (λ event, event ≠ []) before
           ∧ (print_events events ending).1 = omap shown before).
Proof.
  destruct (first_empty_snapshot events)
    as [Hall|(before & events' & -> & Hbefore)].
  - rewrite print_events_nonempty by done. simpl. split.
    + split; [by intros ->|by intros [-> _]].
    + intros e ->. by left.
  - rewrite print_events_until_empty by done. simpl. split.
    + split; [done|]. intros [_ Hall].
      apply Forall_app in Hall as [_ Hall].
      by apply Forall_cons in Hall as [Hnil _].
    + intros e [= <-]. right. split; [done|]. by exists before, events'.
Qed.

Lemma turn_completes_iff_witness :
  let L := Scripted.libraries (Ok []) Scripted.echo_once in
  (@print_events L [ ["a"]; []; ["b"] ] None).2 = Some IndexError
  ∧ (@print_events L [ ["a"]; []; ["b"] ] None).1 = [@PrettyPrint L "a"].
Proof.
  intros L.
  assert (Hraised : (@print_events L [ ["a"]; []; ["b"] ] None).2
                    = Some IndexError) by reflexivity.
  split; [exact Hraised|].
  destruct (proj2 (@turn_completes_iff L [ ["a"]; []; ["b"] ] None)
              IndexError Hraised)
    as [(Hending & _)|(_ & before & events' & Hsplit & Hbefore & Hprinted)].
  - discriminate Hending.
  - reflexivity.
Defined.

(** ** Startup *)

Section Startup.
Context `{Libraries}.

(** [main], with its three startup calls taken together. *)
Lemma main_discover prompt environ lines :
  main prompt environ lines =
    after [Spawn {| command := "docker"; args := knowledge_args |}]
      match discover_tools with
      | Raise e => unwound e lines
      | Ok tools =>
          match init_chat_model (init_chat_model_args environ) with
          | Raise e => unwound e lines
          | Ok llm =>
              after [Assemble llm tools prompt]
                match create_react_agent llm tools prompt with
                | Raise e => unwound e lines
                | Ok graph => invoke_graph graph lines
                end
          end
      end.
Proof.
  unfold main, discover_tools, create_chatbot.
  destruct (stdio_client _) as [streams|e]; [|done]. simpl.
  destruct (initialize streams) as [session|e]; [|done]. simpl.
  destruct (load_mcp_tools session) as [tools|e]; [|done].
  by destruct (init_chat_model _).
Qed.

Lemma assembled_app l1 l2 : assembled (l1 ++ l2) = assembled l1 ++ assembled l2.
Proof. apply omap_app. Qed.

Lemma assembled_printed events ending :
  assembled (print_events events ending).1 = [].
Proof.
  induction events as [|event events IH]; [done|]. simpl.
  destruct (getitem_last event); [|done].
  by destruct (print_events events ending).
Qed.

Lemma assembled_loop graph messages lines :
  assembled (log (invoke_graph_loop graph messages lines)) = [].
Proof.
  apply (loop_ind (λ _ _ _ r, assembled (log r) = [])); try done.
  - intros g m line rest events ending g' e _ _ _. run_fields.
    change (assembled (print_events events ending).1 = []).
    apply assembled_printed.
  - intros g m line rest events ending g' _ _ _ IH. run_fields.
    change (assembled ((print_events events ending).1
                         ++ log (invoke_graph_loop g'
                                   (m ++ [user_message line]) rest)) = []).
    by rewrite assembled_app, IH, assembled_printed.
Qed.

End Startup.

(** X9: when the tool server cannot be started, the handshake fails or
    the tools cannot be listed, the program stops there with that error:
    no agent is assembled, the user is never prompted, no line of input
    is read, and the process exits with status 1. *)
Theorem startup_failure_is_fatal `{Libraries} w prompt e :
  PROMPT (files w) (encoding w) = Ok prompt →
  discover_tools = Raise e →
  chatbot w =
    {| outcome := Raise e; history := []; unread := stdin w;
       log := [Spawn {| command := "docker"; args := knowledge_args |}] |}
  ∧ exit_status (chatbot w) = 1
  ∧ reads (log (chatbot w)) = []
  ∧ assembled (log (chatbot w)) = [].
Proof.
  intros Hprompt Hfail.
  assert (Hrun : chatbot w =
    {| outcome := Raise e; history := []; unread := stdin w;
       log := [Spawn {| command := "docker"; args := knowledge_args |}] |}).
  { unfold chatbot. by rewrite Hprompt, main_discover, Hfail. }
  by rewrite Hrun.
Qed.

Lemma startup_failure_is_fatal_witness :
  let L := Scripted.libraries (Raise (ExternalError "McpError"))
             Scripted.echo_once in
  let w := {| files := ∅; encoding := decode_ascii; environ := ∅;
              stdin := ["Hello"; "quit"] |} in
  outcome (@chatbot L w) = Raise (ExternalError "McpError")
  ∧ unread (@chatbot L w) = ["Hello"; "quit"].
Proof.
  intros L w.
  destruct (@startup_failure_is_fatal L w DEFAULT_PROMPT
              (ExternalError "McpError") eq_refl eq_refl)
    as (Hrun & _).
  rewrite Hrun. split; reflexivity.
Defined.

(** X10: a run calls [create_react_agent] at most once, before the first
    prompt, with the model [init_chat_model] built from the environment
    settings, the tools listed at startup and the loaded prompt.  When
    [init_chat_model] or [create_react_agent] raises, the program ends
    with that error before any prompt; otherwise the whole session runs,
    from an empty history, on the agent that one call returned. *)
Theorem agent_assembled_once `{Libraries} w :
  assembled (log (chatbot w)) =
    match PROMPT (files w) (encoding w), discover_tools,
          init_chat_model (init_chat_model_args (environ w)) with
    | Ok prompt, Ok tools, Ok llm => [(llm, tools, prompt)]
    | _, _, _ => []
    end
  ∧ (∀ prompt tools e,
       PROMPT (files w) (encoding w) = Ok prompt →
       discover_tools = Ok tools →
       init_chat_model (init_chat_model_args (environ w)) = Raise e →
       chatbot w =
         {| outcome := Raise e; history := []; unread := stdin w;
            log := [Spawn {| command := "docker"; args := knowledge_args |}] |})
  ∧ (∀ prompt tools llm,
       PROMPT (files w) (encoding w) = Ok prompt →
       discover_tools = Ok tools →
       init_chat_model (init_chat_model_args (environ w)) = Ok llm →
       chatbot w =
         after [Spawn {| command := "docker"; args := knowledge_args |};
                Assemble llm tools prompt]
           match create_react_agent llm tools prompt with
           | Raise e =>
               {| outcome := Raise e; history := []; unread := stdin w;
                  log := [] |}
           | Ok graph => invoke_graph_loop graph [] (stdin w)
           end).
Proof.
  unfold chatbot. split; [|split].
  - destruct (PROMPT (files w) (encoding w)) as [prompt|e]; [|done].
    rewrite main_discover.
    destruct discover_tools as [tools|e]; [|done].
    destruct (init_chat_model _) as [llm|e]; [|done].
    run_fields.
    change (assembled (Spawn _ :: Assemble ?a ?b ?c :: ?l))
      with ((a, b, c) :: assembled l).
    destruct (create_react_agent llm tools prompt) as [graph|e]; [|done].
    unfold invoke_graph. by rewrite assembled_loop.
  - intros prompt tools e -> Htools Hllm.
    by rewrite main_discover, Htools, Hllm.
  - intros prompt tools llm -> Htools Hllm.
    rewrite main_discover, Htools, Hllm.
    by destruct (create_react_agent llm tools prompt).
Qed.

Lemma agent_assembled_once_witness :
  let L := Scripted.libraries (Ok ["search"]) Scripted.echo_once in
  let w := {| files := ∅; encoding := decode_ascii;
              environ := {[ "LLM_API_MODEL" := "nonsense" ]};
              stdin := ["Hello"; "quit"] |} in
  PROMPT (files w) (encoding w) = Ok DEFAULT_PROMPT
  ∧ @discover_tools L = Ok ["search"]
  ∧ @init_chat_model L (init_chat_model_args (environ w))
    = Raise (ExternalError "ValueError")
  ∧ @chatbot L w =
      {| outcome := Raise (ExternalError "ValueError"); history := [];
         unread := ["Hello"; "quit"];
         log := [Spawn {| command := "docker"; args := knowledge_args |}] |}.
Proof.
  intros L w.
  assert (Hprompt : PROMPT (files w) (encoding w) = Ok DEFAULT_PROMPT)
    by reflexivity.
  assert (Htools : @discover_tools L = Ok ["search"]) by reflexivity.
  assert (Hllm : @init_chat_model L (init_chat_model_args (environ w))
                 = Raise (ExternalError "ValueError")) by reflexivity.
  split; [exact Hprompt|]. split; [exact Htools|]. split; [exact Hllm|].
  exact (proj1 (proj2 (@agent_assembled_once L w))
           DEFAULT_PROMPT ["search"] (ExternalError "ValueError")
           Hprompt Htools Hllm).
Defined.

(** X11: the keyword arguments [init_chat_model] is called with depend on
    the three variables [LLM_API_MODEL], [LLM_API_URL] and [LLM_API_KEY]
    only: two environments that agree on these three give the same
    arguments, so setting or unsetting any other variable changes none
    of them. *)
Theorem other_variables_ignored (environ environ' : gmap string string) :
  (∀ key, key ∈ ["LLM_API_MODEL"; "LLM_API_URL"; "LLM_API_KEY"] →
          environ !! key = environ' !! key) →
  init_chat_model_args environ = init_chat_model_args environ'
  ∧ ∀ key value,
      key ∉ ["LLM_API_MODEL"; "LLM_API_URL"; "LLM_API_KEY"] →
      init_chat_model_args (<[key := value]> environ)
        = init_chat_model_args environ'
      ∧ init_chat_model_args (delete key environ)
        = init_chat_model_args environ'.
Proof.
  intros Hagree.
  assert (Hmodel : environ !! "LLM_API_MODEL" = environ' !! "LLM_API_MODEL").
  { apply Hagree. set_solver. }
  assert (Hurl : environ !! "LLM_API_URL" = environ' !! "LLM_API_URL").
  { apply Hagree. set_solver. }
  assert (Hapi : environ !! "LLM_API_KEY" = environ' !! "LLM_API_KEY").
  { apply Hagree. set_solver. }
  unfold init_chat_model_args, getenv. split.
  - by rewrite Hmodel, Hurl, Hapi.
  - intros key value Hkey.
    apply not_elem_of_cons in Hkey as [Hk1 Hkey].
    apply not_elem_of_cons in Hkey as [Hk2 Hkey].
    apply not_elem_of_cons in Hkey as [Hk3 _].
    rewrite !lookup_insert_ne, !lookup_delete_ne by done.
    by rewrite Hmodel, Hurl, Hapi.
Qed.

Lemma other_variables_ignored_witness :
  let environ : gmap string string := {[ "LLM_API_URL" := "http://llm:9000" ]} in
  let environ' : gmap string string :=
    {[ "LLM_API_URL" := "http://llm:9000"; "HOME" := "/root" ]} in
  (∀ key, key ∈ ["LLM_API_MODEL"; "LLM_API_URL"; "LLM_API_KEY"] →
          environ !! key = environ' !! key)
  ∧ init_chat_model_args environ = init_chat_model_args environ'.
Proof.
  intros environ environ'.
  assert (Hagree : ∀ key,
            key ∈ ["LLM_API_MODEL"; "LLM_API_URL"; "LLM_API_KEY"] →
            environ !! key = environ' !! key).
  { intros key Hkey.
    apply elem_of_cons in Hkey as [->|Hkey]; [reflexivity|].
    apply elem_of_cons in Hkey as [->|Hkey]; [reflexivity|].
    apply elem_of_cons in Hkey as [->|Hkey]; [reflexivity|].
    by apply elem_of_nil in Hkey. }
  split; [exact Hagree|].
  exact (proj1 (other_variables_ignored environ environ' Hagree)).
Defined.

(** ** What holds at every point of a session *)

Section Invariants.
Context `{Libraries}.
Import Machine.

Lemma reads_app l1 l2 : reads (l1 ++ l2) = reads l1 ++ reads l2.
Proof. apply omap_app. Qed.

Lemma step_accounted initial lines s s' :
  step s = Some s' → accounted initial lines s → accounted initial lines s'.
Proof.
  destruct s as [ctl g msgs rest did]. unfold step, accounted. simpl.
  destruct ctl as [|events ending g'| |e]; [| |done|done].
  - destruct rest as [|line rest].
    + intros [= <-] [Hin Hmsgs]. simpl.
      rewrite reads_app. simpl. by rewrite !app_nil_r in *.
    + destruct (decide (lower line = "quit")) as [Hq|Hq].
      * intros [= <-] [Hin Hmsgs]. simpl. rewrite reads_app.
        change (reads [Prompt "User: "; ReadLine line; Print "Exiting..."])
          with [line].
        rewrite <- app_assoc. split; [done|].
        rewrite filter_app, filter_cons_False by (by intros Hne).
        simpl. by rewrite app_nil_r.
      * destruct (astream g (msgs ++ [user_message line]) config)
          as [[events ending] g'].
        intros [= <-] [Hin Hmsgs]. simpl. rewrite reads_app.
        change (reads [Prompt "User: "; ReadLine line;
                       Astream (msgs ++ [user_message line]) config])
          with [line].
        rewrite <- app_assoc. split; [done|].
        rewrite filter_app, filter_cons_True by done. simpl.
        rewrite fmap_app, app_assoc. by rewrite Hmsgs.
  - destruct events as [|event events].
    + destruct ending; by intros [= <-].
    + destruct (getitem_last event) as [m|e]; intros [= <-] [Hin Hmsgs];
        simpl; [|done].
      rewrite reads_app. simpl. by rewrite !app_nil_r.
Qed.

End Invariants.

(** X12: at every point of a session, not only at its end, no input line
    is lost or read twice and the history is exactly the user messages of
    the lines read so far: after any number of transitions, the lines read
    followed by the lines still waiting are the input, and the history is
    the initial one followed by one user message per line read that is
    not the quit command. *)
Theorem session_accounted `{Libraries} graph initial lines n :
  let s := Machine.steps n (Machine.start graph initial lines []) in
  reads (Machine.done s) ++ Machine.stdin s = lines
  ∧ Machine.messages s =
      initial ++ ((λ line, {| role := "user"; content := line |}) <$>
                    filter (λ line, lower line ≠ "quit")
                      (reads (Machine.done s))).
Proof.
  simpl.
  assert (Hinv : ∀ s, accounted initial lines s →
                   accounted initial lines (Machine.steps n s)).
  { induction n as [|n IH]; intros s Hs; [done|]. simpl.
    destruct (Machine.step s) as [s'|] eqn:Hstep; [|done].
    apply IH. by eapply step_accounted. }
  apply Hinv. split; simpl; [done|]. by rewrite app_nil_r.
Qed.

(** X13: the k-th call of the agent answers the k-th line read that is
    not the quit command: the history it is handed ends with the user
    message of that line.  A quit command is never sent to the agent. *)
Theorem call_answers_latest_line `{Libraries} graph messages lines :
  let r := invoke_graph_loop graph messages lines in
  ∀ k msgs cfg, calls (log r) !! k = Some (msgs, cfg) →
    ∃ line,
      filter (λ line, lower line ≠ "quit") (reads (log r)) !! k = Some line
      ∧ lower line ≠ "quit"
      ∧ last msgs = Some {| role := "user"; content := line |}.
Proof.
  simpl.
  apply (loop_ind (λ _ _ _ r,
    ∀ k msgs cfg, calls (log r) !! k = Some (msgs, cfg) →
      ∃ line,
        filter (λ line, lower line ≠ "quit") (reads (log r)) !! k = Some line
        ∧ lower line ≠ "quit"
        ∧ last msgs = Some (user_message line))).
  - intros g m k msgs cfg. by destruct k.
  - intros g m line rest _ k msgs cfg. by destruct k.
  - intros g m line rest events ending g' e Hq _ _ k msgs cfg. run_fields.
    rewrite <- (app_nil_r (print_events events ending).1).
    rewrite calls_turn, reads_turn, filter_cons_True by done.
    destruct k as [|k]; [|done]. intros [= <- <-].
    exists line. by rewrite last_snoc.
  - intros g m line rest events ending g' Hq _ _ IH k msgs cfg. run_fields.
    rewrite calls_turn, reads_turn, filter_cons_True by done.
    destruct k as [|k]; [|by apply IH]. intros [= <- <-].
    exists line. by rewrite last_snoc.
Qed.

Lemma call_answers_latest_line_witness :
  let L := Scripted.libraries (Ok []) Scripted.echo_once in
  let r := @invoke_graph_loop L Scripted.echo_once [] ["a"; "b"; "quit"] in
  @calls L (log r) !! 1 = Some ([user_message "a"; user_message "b"], config)
  ∧ ∃ line, last [user_message "a"; user_message "b"]
            = Some {| role := "user"; content := line |}.
Proof.
  intros L r.
  assert (Hcall : @calls L (log r) !! 1
                  = Some ([user_message "a"; user_message "b"], config))
    by reflexivity.
  split; [exact Hcall|].
  destruct (@call_answers_latest_line L Scripted.echo_once []
              ["a"; "b"; "quit"] 1 _ _ Hcall) as (line & _ & _ & Hlast).
  by exists line.
Defined.

Section Prompts.
Context `{Libraries}.

Lemma prompts_turn text line msgs cfg events ending l :
  prompts (Prompt text :: ReadLine line :: Astream msgs cfg
             :: (print_events events ending).1 ++ l)
  = text :: prompts l.
Proof.
  change (text :: prompts ((print_events events ending).1 ++ l)
          = text :: prompts l).
  f_equal. unfold prompts. rewrite omap_app.
  assert (Hnone : omap (λ a, match a with Prompt t => Some t | _ => None end)
                    (print_events events ending).1 = []); [|by rewrite Hnone].
  clear l. induction events as [|event events IH]; [done|]. simpl.
  destruct (getitem_last event); [|done].
  by destruct (print_events events ending).
Qed.

End Prompts.

(** X14: the user is prompted with ["User: "] once for every line read,
    and once more only when the input has run out, which ends the
    session by [EOFError] with nothing left unread. *)
Theorem one_prompt_per_read `{Libraries} graph messages lines :
  let r := invoke_graph_loop graph messages lines in
  Forall (λ text, text = "User: ") (prompts (log r))
  ∧ (length (prompts (log r)) = length (reads (log r))
     ∨ (length (prompts (log r)) = S (length (reads (log r)))
        ∧ outcome r = Raise EOFError ∧ unread r = []
        ∧ reads (log r) = lines)).
Proof.
  simpl.
  apply (loop_ind (λ _ _ lines r,
    Forall (λ text, text = "User: ") (prompts (log r))
    ∧ (length (prompts (log r)) = length (reads (log r))
       ∨ (length (prompts (log r)) = S (length (reads (log r)))
          ∧ outcome r = Raise EOFError ∧ unread r = []
          ∧ reads (log r) = lines)))).
  - intros g m. split; [by repeat constructor|]. by right.
  - intros g m line rest _. split; [by repeat constructor|]. by left.
  - intros g m line rest events ending g' e _ _ _. run_fields.
    rewrite <- (app_nil_r (print_events events ending).1).
    rewrite prompts_turn, reads_turn.
    split; [by repeat constructor|]. by left.
  - intros g m line rest events ending g' _ _ _ [IHall IH]. run_fields.
    rewrite prompts_turn, reads_turn.
    split; [by constructor|]. cbn [length].
    destruct IH as [IH|(IH & Hout & Hunread & Hreads)]; [left; lia|].
    right. rewrite IH, Hreads. done.
Qed.
